(** * mozilla-taskcluster: the task-graph job ([src/jobs/taskcluster_graph.js])

    A shallow embedding of the job that turns one push into a submitted task
    group, and the properties of its specification.

    - [Js] is the fragment of JavaScript the job runs on: values as js-yaml
      produces them, exceptions, property reads and writes in strict mode,
      [ToString], [Set] de-duplication.
    - [Collaborators] gathers what the job reaches through imports or through
      [this.runtime]: js-yaml, [instantiate], slugid, the queue client,
      superagent, Node's [url] and [path], the project registry, the push log.
    - The functions of the file follow under their own names: [parseUrl],
      [parseCommitMessage], [fetchGraph], [renderTemplate], [renderTemplateV0],
      [scheduleTaskGroup], [work]. *)

From Stdlib Require Import List String Ascii ZArith Bool Lia DecimalString.
Import ListNotations.
Local Open Scope string_scope.
Set Warnings "-register-all".


(* ================================================================== *)
(** ** The JavaScript fragment *)
(* ================================================================== *)

Module Js.

(** Values as [yaml.safeLoad] returns them, together with [undefined] (what a
    missing property reads as).  An object keeps its properties in insertion
    order; an array is an object too and may be given named properties besides
    its elements.  Numbers are the integral ones (the job compares a version
    with [0] and prints a level).  The model is a tree: two places of a document
    never share one object. *)
Inductive value : Type :=
| VUndefined
| VNull
| VBool (b : bool)
| VNum (n : Z)
| VStr (s : string)
| VArr (elems : list value) (props : list (string * value))
| VObj (props : list (string * value)).

(** An exception value: what [e.name], [e.message] and [e.stack] read. *)
Record exn : Type := Exn { name : string; message : string; stack : string }.

(** Completion of a computation: a value, or a thrown exception. *)
Inductive result (A : Type) : Type :=
| Ok (a : A)
| Throw (e : exn).
Arguments Ok {A} a.
Arguments Throw {A} e.

Definition bind {A B} (r : result A) (k : A -> result B) : result B :=
  match r with
  | Ok a => k a
  | Throw e => Throw e
  end.

(** [Error.prototype.toString]. *)
Definition toString (e : exn) : string :=
  if String.eqb (name e) "" then message e
  else if String.eqb (message e) "" then name e
  else name e ++ ": " ++ message e.

(** [new Error(msg)]; the frames of the stack trace are left out. *)
Definition Error (msg : string) : exn :=
  {| name := "Error"; message := msg; stack := "Error: " ++ msg |}.

Definition TypeError (msg : string) : exn :=
  {| name := "TypeError"; message := msg; stack := "TypeError: " ++ msg |}.

(** [ToBoolean]. *)
Definition truthy (v : value) : bool :=
  match v with
  | VUndefined | VNull => false
  | VBool b => b
  | VNum n => negb (n =? 0)%Z
  | VStr s => negb (String.eqb s "")
  | VArr _ _ | VObj _ => true
  end.

(** [a || b]. *)
Definition or_else (a b : value) : value := if truthy a then a else b.

(** Own properties, in insertion order. *)
Fixpoint lookup (k : string) (ps : list (string * value)) : option value :=
  match ps with
  | [] => None
  | (k', v) :: ps' => if String.eqb k k' then Some v else lookup k ps'
  end.

(** Assignment to a property: an existing key keeps its place, a new one goes
    last. *)
Fixpoint update (k : string) (v : value) (ps : list (string * value))
  : list (string * value) :=
  match ps with
  | [] => [(k, v)]
  | (k', v') :: ps' =>
      if String.eqb k k' then (k, v) :: ps' else (k', v') :: update k v ps'
  end.

Definition prop_or_undefined (k : string) (ps : list (string * value)) : value :=
  match lookup k ps with
  | Some v => v
  | None => VUndefined
  end.

(** How a value prints inside an engine's error message. *)
Definition describe (v : value) : string :=
  match v with
  | VUndefined => "undefined"
  | VNull => "null"
  | VBool true => "true"
  | VBool false => "false"
  | VNum n => NilZero.string_of_int (Z.to_int n)
  | VStr s => "string '" ++ s ++ "'"
  | VArr _ _ => "[object Array]"
  | VObj _ => "#<Object>"
  end.

(** [v.k] for a name [k] that no built-in prototype defines (every name the
    job reads is such a name): reading from [undefined] or [null] throws, a
    primitive has no such property. *)
Definition get_field (v : value) (k : string) : result value :=
  match v with
  | VUndefined | VNull =>
      Throw (TypeError ("Cannot read property '" ++ k ++ "' of " ++ describe v))
  | VObj ps | VArr _ ps => Ok (prop_or_undefined k ps)
  | VBool _ | VNum _ | VStr _ => Ok VUndefined
  end.

Definition index_key (i : nat) : string :=
  NilZero.string_of_uint (Nat.to_uint i).

Definition char_at (i : nat) (s : string) : value :=
  match String.get i s with
  | Some c => VStr (String c EmptyString)
  | None => VUndefined
  end.

(** [v[i]]: an element of an array, a character of a string, the property
    named by the digits of [i] of an object. *)
Definition get_index (v : value) (i : nat) : result value :=
  match v with
  | VUndefined | VNull =>
      Throw (TypeError ("Cannot read property '" ++ index_key i ++ "' of " ++ describe v))
  | VArr l _ => Ok (nth i l VUndefined)
  | VStr s => Ok (char_at i s)
  | VObj ps => Ok (prop_or_undefined (index_key i) ps)
  | VBool _ | VNum _ => Ok VUndefined
  end.

(** [v.k = x] in strict mode (the file is an ES module): only an object or an
    array takes the property. *)
Definition set_field (v : value) (k : string) (x : value) : result value :=
  match v with
  | VObj ps => Ok (VObj (update k x ps))
  | VArr l ps => Ok (VArr l (update k x ps))
  | VUndefined | VNull =>
      Throw (TypeError ("Cannot set property '" ++ k ++ "' of " ++ describe v))
  | VBool _ | VNum _ | VStr _ =>
      Throw (TypeError ("Cannot create property '" ++ k ++ "' on " ++ describe v))
  end.

Fixpoint replace_nth (i : nat) (x : value) (l : list value) : list value :=
  match l, i with
  | [], _ => []
  | _ :: t, O => x :: t
  | h :: t, S j => h :: replace_nth j x t
  end.

(** The object reached as [v[i]] after it has been changed in place to [x]
    (the tree model writes the changed child back into its parent). *)
Definition put_index (v : value) (i : nat) (x : value) : value :=
  match v with
  | VArr l ps => VArr (replace_nth i x l) ps
  | VObj ps => VObj (update (index_key i) x ps)
  | _ => v
  end.

(** The object reached as [v.k] after it has been changed in place to [x]. *)
Definition put_field (v : value) (k : string) (x : value) : value :=
  match v with
  | VObj ps => VObj (update k x ps)
  | VArr l ps => VArr l (update k x ps)
  | _ => v
  end.

Fixpoint join (sep : string) (l : list string) : string :=
  match l with
  | [] => ""
  | [s] => s
  | s :: t => s ++ sep ++ join sep t
  end.

(** [ToString], as a template literal or [+] applies it. *)
Fixpoint to_string (v : value) : string :=
  match v with
  | VUndefined => "undefined"
  | VNull => "null"
  | VBool true => "true"
  | VBool false => "false"
  | VNum n => NilZero.string_of_int (Z.to_int n)
  | VStr s => s
  | VArr l _ =>
      join ","
        ((fix elems (l : list value) : list string :=
            match l with
            | [] => []
            | VUndefined :: t | VNull :: t => "" :: elems t
            | x :: t => to_string x :: elems t
            end) l)
  | VObj _ => "[object Object]"
  end.

(** The characters of a string, as iterating it yields them. *)
Fixpoint chars (s : string) : list value :=
  match s with
  | EmptyString => []
  | String c t => VStr (String c EmptyString) :: chars t
  end.

(** What [for (let x of v)] and [new Set(v)] iterate over. *)
Definition iterate (v : value) : result (list value) :=
  match v with
  | VArr l _ => Ok l
  | VStr s => Ok (chars s)
  | _ => Throw (TypeError (describe v ++ " is not iterable"))
  end.

(** [SameValueZero], the equality of [Set]: primitives by value, objects by
    identity (two nodes of the tree are two objects). *)
Definition same_value_zero (a b : value) : bool :=
  match a, b with
  | VUndefined, VUndefined => true
  | VNull, VNull => true
  | VBool x, VBool y => Bool.eqb x y
  | VNum x, VNum y => (x =? y)%Z
  | VStr x, VStr y => String.eqb x y
  | _, _ => false
  end.

(** [set.add(x)] on the insertion-ordered contents of a [Set]. *)
Definition set_add (seen : list value) (x : value) : list value :=
  if existsb (same_value_zero x) seen then seen else seen ++ [x].

(** [Array.from(new Set(l))]. *)
Definition array_from_set (l : list value) : list value :=
  fold_left set_add l [].

(** [recv.concat(arr)] for an array [arr] of strings: array concatenation on an
    array, string concatenation (with [arr.join(",")]) on a string, and no such
    method on anything else. *)
Definition concat (recv : value) (arr : list string) : result value :=
  match recv with
  | VArr l _ => Ok (VArr (l ++ map VStr arr) [])
  | VStr s => Ok (VStr (s ++ join "," arr))
  | _ => Throw (TypeError "taskDefinitionScopes.concat is not a function")
  end.

(** [hay.indexOf(needle, from)], [None] standing for [-1]. *)
Definition indexOf (needle : string) (from : nat) (hay : string) : option nat :=
  String.index from needle hay.

(** [s.slice(i, j)] for [0 <= i <= j <= s.length]. *)
Definition slice (i j : nat) (s : string) : string :=
  String.substring i (j - i) s.

End Js.

Import Js.

(* ================================================================== *)
(** ** Data of the job *)
(* ================================================================== *)

(** The fields of Node's [url.parse(url)] that [parseUrl] reads; each is a
    string or [null]. *)
Record parsed_url : Type :=
  { protocol : value; host : value; path : value }.

(** What [parseUrl] returns: [{ path, host }]. *)
Record url_parts : Type := { parts_path : string; parts_host : string }.

Record changeset : Type := { node : string; desc : string }.

(** A push, as the push log returns it. *)
Record push : Type :=
  { push_id : value; user : string; date : value; changesets : list changeset }.

Record repository : Type := { url : string; alias : string }.

(** [job.data]. *)
Record job_data : Type :=
  { revision_hash : value; pushref_id : value; repo : repository }.

(** The variables [tcYamlUrl] is given. *)
Record url_variables : Type :=
  { var_alias : string; var_revision : string; var_path : string; var_host : string }.

(** A resolved superagent response. *)
Record response : Type := { error : option exn; text : string }.

(** The options object handed to [retry]; its second key is spelled as the
    source spells it. *)
Record retry_options : Type := { interval : Z; retires : nat }.

(* ================================================================== *)
(** ** Collaborators *)
(* ================================================================== *)

(** What the job imports or receives and this file does not define.  The
    remote services are state machines: [Remote] is the queue service,
    [Net] the network. *)
Class Collaborators : Type :=
  { (* js-yaml *)
    yaml_safeLoad : string -> result value;
    (* ../try/instantiate: variable substitution, then a YAML parse *)
    instantiate : string -> list (string * value) -> result value;
    (* slugid.nice(): the n-th identifier it hands out *)
    slugid_nice : nat -> string;
    (* taskcluster-client *)
    Credentials : Type;
    Remote : Type;
    queue_createTask :
      Credentials -> list string -> Remote -> string -> value -> Remote * option exn;
    (* superagent-promise: GET with a timeout, buffered *)
    Net : Type;
    request_get : Net -> string -> Z -> Net * result response;
    (* Node's url and path *)
    URL_parse : string -> parsed_url;
    Path_resolve : string -> string;
    (* ../project_scopes *)
    TryConfig : Type;
    projectConfig_level : TryConfig -> string -> value;
    projectConfig_scopes : TryConfig -> string -> list string;
    projectConfig_tcYamlUrl : TryConfig -> url_variables -> string;
    errorTask : TryConfig -> string;
    (* this.runtime.pushlog *)
    pushlog_getOne : string -> value -> result push }.

(** A queue client: [new taskcluster.Queue({ credentials, authorizedScopes })]. *)
Record queue `{Collaborators} : Type :=
  { credentials : Credentials; authorizedScopes : list string }.

(** [this.config]: [config.try] and [config.taskcluster.credentials]. *)
Record config `{Collaborators} : Type :=
  { config_try : TryConfig; config_credentials : Credentials }.

(** One [client.createTask(taskId, taskDefinition)] call: the client it went
    through, its arguments as they stood at the call, and how it ended
    ([None]: resolved). *)
Record call `{Collaborators} : Type :=
  { via : queue; taskId : string; definition : value; outcome : option exn }.

(** What goes over the network while fetching. *)
Inductive net_event : Type :=
| Request (target : string) (timeout : Z)
| Sleep (ms : Z).

(** Everything outside the job that it changes: identifiers drawn so far, the
    queue service and the calls made to it, the network and its traffic, the
    console. *)
Record world `{Collaborators} : Type :=
  { drawn : nat;
    remote : Remote;
    created : list call;
    net : Net;
    wire : list net_event;
    console : list string }.

(* ================================================================== *)
(** ** Effects *)
(* ================================================================== *)

Section Effects.
Context `{Collaborators}.

(** An effectful computation: it changes the world and completes with a value
    or an exception; what was done before a throw stays done. *)
Definition M (A : Type) : Type := world -> result A * world.

Definition ret {A} (a : A) : M A := fun w => (Ok a, w).

Definition throw {A} (e : exn) : M A := fun w => (Throw e, w).

Definition bindM {A B} (m : M A) (k : A -> M B) : M B :=
  fun w =>
    match m w with
    | (Ok a, w') => k a w'
    | (Throw e, w') => (Throw e, w')
    end.

(** A pure completion inside an effectful computation. *)
Definition lift {A} (r : result A) : M A := fun w => (r, w).

(** [try { m } catch (e) { handler e }]. *)
Definition try_catch {A} (m : M A) (handler : exn -> M A) : M A :=
  fun w =>
    match m w with
    | (Ok a, w') => (Ok a, w')
    | (Throw e, w') => handler e w'
    end.

(** [console.log(line)]. *)
Definition console_log (line : string) : M unit :=
  fun w =>
    (Ok tt,
     {| drawn := drawn w; remote := remote w; created := created w;
        net := net w; wire := wire w; console := console w ++ [line] |}).

(** [slugid.nice()]. *)
Definition nice : M string :=
  fun w =>
    (Ok (slugid_nice (drawn w)),
     {| drawn := S (drawn w); remote := remote w; created := created w;
        net := net w; wire := wire w; console := console w |}).

(** [await client.createTask(taskId, taskDefinition)]. *)
Definition createTask (client : queue) (id : string) (def : value) : M unit :=
  fun w =>
    let (remote', failure) :=
      queue_createTask (credentials client) (authorizedScopes client) (remote w) id def in
    (match failure with
     | None => Ok tt
     | Some e => Throw e
     end,
     {| drawn := drawn w; remote := remote';
        created := created w ++
          [{| via := client; taskId := id; definition := def; outcome := failure |}];
        net := net w; wire := wire w; console := console w |}).

(** [await request.get(url).timeout(ms).buffer(true).end()]. *)
Definition http_get (target : string) (ms : Z) : M response :=
  fun w =>
    let (net', r) := request_get (net w) target ms in
    (r,
     {| drawn := drawn w; remote := remote w; created := created w;
        net := net'; wire := wire w ++ [Request target ms]; console := console w |}).

(** Waiting between two attempts. *)
Definition sleep (ms : Z) : M unit :=
  fun w =>
    (Ok tt,
     {| drawn := drawn w; remote := remote w; created := created w;
        net := net w; wire := wire w ++ [Sleep ms]; console := console w |}).

End Effects.

Declare Scope job_scope.
Delimit Scope job_scope with job.
Notation "x <- m ;; k" := (bindM m (fun x => k))
  (at level 61, m at next level, right associativity) : job_scope.
Notation "m ;;; k" := (bindM m (fun _ => k))
  (at level 61, right associativity) : job_scope.
Notation "'let*' x := r 'in' k" := (Js.bind r (fun x => k))
  (at level 61, x name, r at next level, right associativity).

(* ================================================================== *)
(** ** The job *)
(* ================================================================== *)

Definition GRAPH_RETIRES : nat := 2.
Definition GRAPH_INTERVAL : Z := 5000.
Definition GRAPH_REQ_TIMEOUT : Z := 30000.
Definition TRY_PREFIX : string := "try:".

(** The line feed. *)
Definition LF : string := String (ascii_of_nat 10) EmptyString.

Section Job.
Context `{Collaborators}.

(** [Path.resolve(p)]: a string is resolved, anything else is refused. *)
Definition resolve_path (p : value) : result string :=
  match p with
  | VStr s => Ok (Path_resolve s)
  | _ => Throw (TypeError ("Path must be a string. Received " ++ describe p))
  end.

(** [parseUrl(url)]. *)
Definition parseUrl (u : string) : result url_parts :=
  let parsed := URL_parse u in
  let* path := resolve_path (path parsed) in
  let path := if String.eqb path "/" then "" else path in
  Ok {| parts_path := path;
        parts_host :=
          to_string (or_else (protocol parsed) (VStr "http")) ++ "//" ++
          to_string (host parsed) |}.

(** [parseCommitMessage(message)]: [null], or the text from the try flag to
    the end of its line. *)
Definition parseCommitMessage (message : string) : value :=
  match indexOf TRY_PREFIX 0 message with
  | None => VNull
  | Some tryIdx =>
      let endIdx :=
        match indexOf LF tryIdx message with
        | None => String.length message
        | Some endIdx => endIdx
        end in
      VStr (slice tryIdx endIdx message)
  end.

(** Modelled from the spec: the loop of [retry(opts, fn)] of the
    promise-retries package, which the job imports and this repository does
    not contain.  A bounded retry policy: [fn] is attempted, and attempted
    again after a pause on any failure, as long as the budget of retries
    lasts; when it is spent the last failure is the result. *)
Fixpoint retry_from {A} (budget : nat) (pause : Z) (fn : M A) : M A :=
  fun w =>
    match fn w with
    | (Ok a, w') => (Ok a, w')
    | (Throw e, w') =>
        match budget with
        | O => (Throw e, w')
        | S budget' => retry_from budget' pause fn (snd (sleep pause w'))
        end
    end.

(** Modelled from the spec: [retry(opts, fn)] itself, reading its budget and
    its interval from the options under the keys the job uses. *)
Definition retry {A} (opts : retry_options) (fn : M A) : M A :=
  retry_from (retires opts) (interval opts) fn.

(** [assert(url, 'url is required')]. *)
Definition assert_url (u : string) : M unit :=
  if truthy (VStr u) then ret tt
  else throw {| name := "AssertionError"; message := "url is required";
                stack := "AssertionError: url is required" |}.

(** [fetchGraph(url)]. *)
Definition fetchGraph (u : string) : M string :=
  (assert_url u ;;;
   let opts := {| interval := GRAPH_INTERVAL; retires := GRAPH_RETIRES |} in
   try_catch
     (retry opts
        (res <- http_get u GRAPH_REQ_TIMEOUT ;;
         match error res with
         | Some e => throw e
         | None => ret (text res)
         end))
     (fun e => throw (Error ("Could not fetch graph at " ++ u ++ LF ++ " " ++ stack e))))%job.

(** The body of a [for (let task of ...)] loop that changes each task in
    place, stopping at the first throw. *)
Fixpoint for_each (body : value -> result value) (l : list value)
  : result (list value) :=
  match l with
  | [] => Ok []
  | x :: t =>
      let* x' := body x in
      let* t' := for_each body t in
      Ok (x' :: t')
  end.

(** The iterated collection once its items have been changed in place (the
    characters of a string are not objects and stay as they are). *)
Definition with_items (collection : value) (items : list value) : value :=
  match collection with
  | VArr _ ps => VArr items ps
  | _ => collection
  end.

(** [renderTemplateV0(project, template, templateVariables)]. *)
Definition renderTemplateV0 (project template : string)
    (templateVariables : list (string * value)) : result value :=
  let schedulerId :=
    "gecko-level-" ++ to_string (prop_or_undefined "level" templateVariables) in
  let* renderedTemplate := instantiate template templateVariables in
  let* tasks := get_field renderedTemplate "tasks" in
  let* items := iterate tasks in
  let* items' :=
    for_each
      (fun task =>
         let* inner := get_field task "task" in
         let* inner' := set_field inner "schedulerId" (VStr schedulerId) in
         Ok (put_field task "task" inner'))
      items in
  Ok (put_field renderedTemplate "tasks" (with_items tasks items')).

(** [version === 0]. *)
Definition is_zero (version : value) : bool :=
  match version with
  | VNum n => (n =? 0)%Z
  | _ => false
  end.

(** [template.indexOf('version: 0') !== -1]. *)
Definition mentions_version_0 (template : string) : bool :=
  match indexOf "version: 0" 0 template with
  | Some _ => true
  | None => false
  end.

(** The [try]/[catch] at the head of [renderTemplate]: the version number. *)
Definition template_version (template : string) : result value :=
  match (let* data := yaml_safeLoad template in get_field data "version") with
  | Ok version => Ok version
  | Throw e =>
      if mentions_version_0 template then Ok (VNum 0) else Throw e
  end.

(** [renderTemplate(project, template, templateVariables)]. *)
Definition renderTemplate (project template : string)
    (templateVariables : list (string * value)) : result value :=
  let* version := template_version template in
  if is_zero version
  then renderTemplateV0 project template templateVariables
  else Throw (Error "Unrecognized .taskcluster.yml version").

(** [renderedTemplate.tasks[0].task.payload]. *)
Definition first_payload (renderedTemplate : value) : result value :=
  let* tasks := get_field renderedTemplate "tasks" in
  let* first := get_index tasks 0 in
  let* task := get_field first "task" in
  get_field task "payload".

(** The rendered template once [renderedTemplate.tasks[0].task.payload] has
    been changed in place to [payload]: the change is written along the path
    [tasks], [0], [task], [payload].  A document is a tree here; in a document
    that reaches the same object along a second path (a YAML anchor and its
    alias) the source changes what is read along that path as well, so the
    properties of the fallback speak of the path written and of the number of
    tasks only, never of what the other tasks hold. *)
Definition with_first_payload (renderedTemplate payload : value) : result value :=
  let* tasks := get_field renderedTemplate "tasks" in
  let* first := get_index tasks 0 in
  let* task := get_field first "task" in
  Ok (put_field renderedTemplate "tasks"
        (put_index tasks 0 (put_field first "task" (put_field task "payload" payload)))).

(** The two assignments of the [catch] block of [scheduleTaskGroup]:
    [payload.env = payload.env || {}], then
    [payload.env.ERROR_MSG = e.toString()]. *)
Definition set_error_message (renderedTemplate : value) (e : exn) : result value :=
  let* payload := first_payload renderedTemplate in
  let* env := get_field payload "env" in
  let* payload := set_field payload "env" (or_else env (VObj [])) in
  let* renderedTemplate := with_first_payload renderedTemplate payload in
  let* payload := first_payload renderedTemplate in
  let* env := get_field payload "env" in
  let* env := set_field env "ERROR_MSG" (VStr (toString e)) in
  with_first_payload renderedTemplate (put_field payload "env" env).

(** The first statement of [scheduleTaskGroup]: render, and on any failure
    render the error template instead. *)
Definition render_or_report (project template : string)
    (templateVariables : list (string * value)) (errorGraphTemplate : string)
  : M value :=
  try_catch
    (lift (renderTemplate project template templateVariables))
    (fun e =>
       (console_log ("Error interpreting .taskcluster.yml: " ++ message e) ;;;
        renderedTemplate <- lift (instantiate errorGraphTemplate templateVariables) ;;
        lift (set_error_message renderedTemplate e))%job).

(** One turn of the loop of [scheduleTaskGroup]; it returns [groupId] as the
    turn leaves it.  The definition is changed in place and handed to
    [createTask] as it then stands; the rendered template is not read again
    after the loop, so the change is not written back into it. *)
Definition schedule_task (client : queue) (project : string)
    (templateVariables : list (string * value)) (scopes : list string)
    (groupId task : value) : M value :=
  (taskId <- nice ;;
   let groupId := if negb (truthy groupId) then VStr taskId else groupId in
   inner <- lift (get_field task "task") ;;
   let taskDefinition := if truthy inner then inner else task in
   declared <- lift (get_field taskDefinition "scopes") ;;
   let taskDefinitionScopes := or_else declared (VArr [] []) in
   joined <- lift (concat taskDefinitionScopes scopes) ;;
   taskScopes <- lift (iterate joined) ;;
   taskDefinition <-
     lift (set_field taskDefinition "scopes" (VArr (array_from_set taskScopes) [])) ;;
   taskDefinition <- lift (set_field taskDefinition "taskGroupId" groupId) ;;
   let revision := to_string (prop_or_undefined "revision" templateVariables) in
   console_log ("Creating task. Project: " ++ project ++ " " ++
                "Revision: " ++ revision ++ " Task ID: " ++ taskId) ;;;
   try_catch
     (createTask client taskId taskDefinition ;;;
      console_log ("Created task. Project: " ++ project ++ " " ++
                   "Revision: " ++ revision ++ " Task ID: " ++ taskId))
     (fun e =>
        console_log ("Error creating task " ++ taskId ++ " for project " ++
                     project ++ ", " ++ message e) ;;;
        throw e) ;;;
   ret groupId)%job.

(** The loop of [scheduleTaskGroup] over the tasks still to go. *)
Fixpoint schedule_tasks (client : queue) (project : string)
    (templateVariables : list (string * value)) (scopes : list string)
    (groupId : value) (tasks : list value) : M unit :=
  match tasks with
  | [] => ret tt
  | task :: rest =>
      (groupId' <- schedule_task client project templateVariables scopes groupId task ;;
       schedule_tasks client project templateVariables scopes groupId' rest)%job
  end.

(** [scheduleTaskGroup(client, project, template, templateVariables, scopes,
    errorGraphTemplate)]. *)
Definition scheduleTaskGroup (client : queue) (project template : string)
    (templateVariables : list (string * value)) (scopes : list string)
    (errorGraphTemplate : string) : M unit :=
  (renderedTemplate <-
     render_or_report project template templateVariables errorGraphTemplate ;;
   tasks <- lift (get_field renderedTemplate "tasks") ;;
   items <- lift (iterate tasks) ;;
   schedule_tasks client project templateVariables scopes VUndefined items)%job.

(** [push.changesets[push.changesets.length - 1]], then a property of it. *)
Definition last_changeset (p : push) : result changeset :=
  match rev (changesets p) with
  | c :: _ => Ok c
  | [] => Throw (TypeError "Cannot read property 'node' of undefined")
  end.

(** The scope that lets a push send e-mail to its user. *)
Definition notify_scope (p : push) : string :=
  "queue:route:notify.email." ++ user p ++ ".*".

(** [work(job)], for a job object holding [cfg] as [this.config].
    [scopes.push(...)] extends the array [projectConfig.scopes] returned, taken
    here to be an array of the job's own. *)
Definition work (cfg : config) (job : job_data) : M unit :=
  (let repo := repo job in
   p <- lift (pushlog_getOne (url repo) (pushref_id job)) ;;
   let pushdate := date p in
   let level := projectConfig_level (config_try cfg) (alias repo) in
   let scopes := projectConfig_scopes (config_try cfg) (alias repo) in
   let scopes := (scopes ++ [notify_scope p])%list in
   lastChangeset <- lift (last_changeset p) ;;
   let templateVariables :=
     [ ("owner", VStr (user p));
       ("revision", VStr (node lastChangeset));
       ("project", VStr (alias repo));
       ("level", level);
       ("revision_hash", revision_hash job);
       ("comment", or_else (parseCommitMessage (desc lastChangeset)) (VStr " "));
       ("pushlog_id", VStr (to_string (push_id p)));
       ("url", VStr (url repo));
       ("pushdate", pushdate) ] in
   repositoryUrlParts <- lift (parseUrl (url repo)) ;;
   let urlVariables :=
     {| var_alias := alias repo;
        var_revision := node lastChangeset;
        var_path := parts_path repositoryUrlParts;
        var_host := parts_host repositoryUrlParts |} in
   let graphUrl := projectConfig_tcYamlUrl (config_try cfg) urlVariables in
   console_log ("Fetching '.taskcluster.yml' url " ++ graphUrl ++ " for '" ++
                alias repo ++ "' push id " ++ to_string (push_id p)) ;;;
   graphText <- fetchGraph graphUrl ;;
   let templateVariables := update "source" (VStr graphUrl) templateVariables in
   let client :=
     {| credentials := config_credentials cfg; authorizedScopes := scopes |} in
   scheduleTaskGroup client (alias repo) graphText templateVariables scopes
     (errorTask (config_try cfg)))%job.

End Job.

(* ================================================================== *)
(** ** Vocabulary of the properties *)
(* ================================================================== *)

Section Vocabulary.
Context `{Collaborators}.

(** The definition a turn of the loop works on: [task.task] when that is
    truthy, [task] itself otherwise. *)
Definition task_definition (task : value) : result value :=
  let* inner := get_field task "task" in
  Ok (if truthy inner then inner else task).

(** The [scopes] a task declares, as the loop reads them. *)
Definition declared_scopes (task : value) : result value :=
  let* taskDefinition := task_definition task in
  get_field taskDefinition "scopes".

(** The definition a turn of the loop hands to [createTask], for the group
    identifier of that turn: the part of [schedule_task] between drawing the
    task identifier and the call. *)
Definition prepared (scopes : list string) (groupId task : value) : result value :=
  let* taskDefinition := task_definition task in
  let* declared := get_field taskDefinition "scopes" in
  let* joined := concat (or_else declared (VArr [] [])) scopes in
  let* taskScopes := iterate joined in
  let* taskDefinition :=
    set_field taskDefinition "scopes" (VArr (array_from_set taskScopes) []) in
  set_field taskDefinition "taskGroupId" groupId.

(** [groupId] after the [if (!groupId)] of a turn that starts in world [w]. *)
Definition group_id_in (groupId : value) (w : world) : value :=
  if negb (truthy groupId) then VStr (slugid_nice (drawn w)) else groupId.

(** The queue service after it has served the given calls, in order. *)
Fixpoint replay (service : Remote) (calls : list call) : Remote :=
  match calls with
  | [] => service
  | c :: rest =>
      replay
        (fst (queue_createTask (credentials (via c)) (authorizedScopes (via c))
                service (taskId c) (definition c)))
        rest
  end.

(** One attempt of [fetchGraph]: the request, then [res.error] or [res.text]. *)
Definition attempt (u : string) (n : Net) : Net * result string :=
  let (n', r) := request_get n u GRAPH_REQ_TIMEOUT in
  (n',
   match r with
   | Throw e => Throw e
   | Ok res =>
       match error res with
       | Some e => Throw e
       | None => Ok (text res)
       end
   end).

(** The failures of the next [k] attempts, when each of them fails. *)
Fixpoint failures (k : nat) (u : string) (n : Net) : option (list exn) :=
  match k with
  | O => Some []
  | S k' =>
      match attempt u n with
      | (n', Throw e) =>
          match failures k' u n' with
          | Some es => Some (e :: es)
          | None => None
          end
      | (_, Ok _) => None
      end
  end.

(** Nothing of the queue has changed between two worlds. *)
Definition same_queue (w w' : world) : Prop :=
  drawn w' = drawn w /\ remote w' = remote w /\ created w' = created w.


(** The tasks of a rendered template, as [for (let task of
    renderedTemplate.tasks)] iterates over them. *)
Definition graph_tasks (renderedTemplate : value) : result (list value) :=
  let* tasks := get_field renderedTemplate "tasks" in
  iterate tasks.

(** The tasks of the graph [scheduleTaskGroup] renders. *)
Definition rendered_items (project template : string)
    (templateVariables : list (string * value)) (errorGraphTemplate : string)
    (w : world) : result (list value) :=
  let* renderedTemplate :=
    fst (render_or_report project template templateVariables errorGraphTemplate w) in
  graph_tasks renderedTemplate.

End Vocabulary.

(** A value that takes properties: an object or an array. *)
Definition accepts_properties (v : value) : bool :=
  match v with
  | VObj _ | VArr _ _ => true
  | _ => false
  end.


(** The scopes a task declares, read as a list of strings: nothing when the
    field is absent (or otherwise falsy). *)
Definition declares (declared : value) (ds : list string) : Prop :=
  (truthy declared = false /\ ds = []) \/
  (exists ps, declared = VArr (map VStr ds) ps).

(** An entry of a task graph in the shape the wire format gives it: its
    definition ([task.task], or the entry itself) is an object, and declares
    its scopes as a list of strings or not at all. *)
Definition well_formed_task (task : value) : Prop :=
  exists d declared ds,
    task_definition task = Ok d /\ accepts_properties d = true /\
    get_field d "scopes" = Ok declared /\ declares declared ds.

(** Insertion of a string into a duplicate-free list. *)
Definition add_scope (seen : list string) (s : string) : list string :=
  if existsb (String.eqb s) seen then seen else (seen ++ [s])%list.

(** The distinct strings of a list, in order of first occurrence. *)
Definition distinct (l : list string) : list string := fold_left add_scope l [].

(** [payload.env] of the first task of a rendered template. *)
Definition first_env (renderedTemplate : value) : result value :=
  let* payload := first_payload renderedTemplate in
  get_field payload "env".

(** [payload.env.ERROR_MSG] of the first task of a rendered template. *)
Definition first_error_message (renderedTemplate : value) : result value :=
  let* env := first_env renderedTemplate in
  get_field env "ERROR_MSG".

(* ================================================================== *)
(** ** A concrete set of collaborators *)
(* ================================================================== *)

(** Small stand-ins on which the job can be run: a YAML reader that knows a
    handful of documents, a queue service and a network that follow a script
    of outcomes, a one-project registry.  The examples after the theorems run
    on them. *)
Module Demo.

(** [{task: {payload: {}}}] *)
Definition wrapped_task : value := VObj [("task", VObj [("payload", VObj [])])].

(** The template of the specification's version-0 example. *)
Definition t_wrapped : string := "{version: 0, tasks: [{task: {payload: {}}}]}".
Definition doc_wrapped : value :=
  VObj [("version", VNum 0); ("tasks", VArr [wrapped_task] [])].

(** A version-0 template whose only entry is a bare task definition. *)
Definition t_bare : string := "{version: 0, tasks: [{payload: {}}]}".
Definition doc_bare : value :=
  VObj [("version", VNum 0); ("tasks", VArr [VObj [("payload", VObj [])]] [])].

(** A graph of three tasks; the first declares scopes and a group of its own. *)
Definition t_three : string :=
  "{version: 0, tasks: [{task: {scopes: [scope:a, scope:b], taskGroupId: mine}}, {task: {payload: {}}}, {task: {scopes: [scope:c]}}]}".
Definition doc_three : value :=
  VObj [("version", VNum 0);
        ("tasks",
         VArr [ VObj [("task", VObj [("scopes", VArr [VStr "scope:a"; VStr "scope:b"] []);
                                     ("taskGroupId", VStr "mine")])];
                wrapped_task;
                VObj [("task", VObj [("scopes", VArr [VStr "scope:c"] [])])] ] [])].

(** A template of a version this job does not know. *)
Definition t_v1 : string := "{version: 1, tasks: []}".
Definition doc_v1 : value := VObj [("version", VNum 1); ("tasks", VArr [] [])].

(** A legacy template: no YAML before substitution, one wrapped task after. *)
Definition t_legacy : string := "{version: 0, tasks: [{{#task}}]}".

(** Text that is no YAML and names no version. *)
Definition t_broken : string := "{tasks: [".

(** Error templates: a usual one, one whose task already carries a message,
    one without any task. *)
Definition err_plain : string := "{tasks: [{task: {payload: {}}}]}".
Definition doc_err_plain : value := VObj [("tasks", VArr [wrapped_task] [])].

Definition err_with_message : string :=
  "{tasks: [{task: {payload: {env: {ERROR_MSG: old, KEEP: me}}}}]}".
Definition doc_err_with_message : value :=
  VObj [("tasks",
         VArr [VObj [("task",
                      VObj [("payload",
                             VObj [("env", VObj [("ERROR_MSG", VStr "old");
                                                 ("KEEP", VStr "me")])])])]] [])].

Definition err_no_task : string := "{tasks: []}".
Definition doc_err_no_task : value := VObj [("tasks", VArr [] [])].

(** An error template of two tasks. *)
Definition err_two_tasks : string :=
  "{tasks: [{task: {payload: {}}}, {task: {payload: {}}}]}".
Definition doc_err_two_tasks : value :=
  VObj [("tasks", VArr [wrapped_task; wrapped_task] [])].

Definition yaml_error : exn :=
  {| name := "YAMLException"; message := "unexpected end of the stream";
     stack := "YAMLException: unexpected end of the stream" |}.

Definition known (text : string) : result value :=
  if String.eqb text t_wrapped then Ok doc_wrapped
  else if String.eqb text t_bare then Ok doc_bare
  else if String.eqb text t_three then Ok doc_three
  else if String.eqb text t_v1 then Ok doc_v1
  else if String.eqb text err_plain then Ok doc_err_plain
  else if String.eqb text err_with_message then Ok doc_err_with_message
  else if String.eqb text err_no_task then Ok doc_err_no_task
  else if String.eqb text err_two_tasks then Ok doc_err_two_tasks
  else Throw yaml_error.

(** Substitution leaves the known documents as they are and completes the
    legacy template. *)
Definition substitute (template : string) (variables : list (string * value))
  : result value :=
  if String.eqb template t_legacy then Ok doc_wrapped else known template.

Definition refused : exn :=
  {| name := "Error"; message := "connect ECONNREFUSED";
     stack := "Error: connect ECONNREFUSED" |}.

(** The queue service follows a script: the outcome of each call to come. *)
Definition scripted_createTask (_ : unit) (_ : list string)
    (script : list (option exn)) (_ : string) (_ : value)
  : list (option exn) * option exn :=
  match script with
  | [] => ([], None)
  | o :: rest => (rest, o)
  end.

(** So does the network; once the script is over, nothing answers. *)
Definition scripted_get (script : list (result response)) (_ : string) (_ : Z)
  : list (result response) * result response :=
  match script with
  | [] => ([], Throw refused)
  | r :: rest => (rest, r)
  end.

Definition parse (u : string) : parsed_url :=
  if String.eqb u "https://hg.mozilla.org/try/"
  then {| protocol := VStr "https:"; host := VStr "hg.mozilla.org"; path := VStr "/try/" |}
  else if String.eqb u "//user@hg.mozilla.org/"
  then {| protocol := VNull; host := VStr "hg.mozilla.org"; path := VStr "/" |}
  else {| protocol := VNull; host := VNull; path := VStr u |}.

Definition resolve (p : string) : string :=
  if String.eqb p "/try/" then "/try" else p.

Definition the_push : push :=
  {| push_id := VNum 42;
     user := "dev@example.com";
     date := VNum 1500000000;
     changesets :=
       [ {| node := "1f0e"; desc := "Bug 1 - first part" |};
         {| node := "abcd"; desc := "Bug 1 - last part; try: -b do -p all" ++ LF ++ "more" |} ] |}.

#[global] Instance collaborators : Collaborators :=
  {| yaml_safeLoad := known;
     instantiate := substitute;
     slugid_nice := fun n => "slug-" ++ index_key n;
     Credentials := unit;
     Remote := list (option exn);
     queue_createTask := scripted_createTask;
     Net := list (result response);
     request_get := scripted_get;
     URL_parse := parse;
     Path_resolve := resolve;
     TryConfig := string;
     projectConfig_level := fun _ _ => VNum 3;
     projectConfig_scopes := fun _ _ => ["scope:a"];
     projectConfig_tcYamlUrl :=
       fun _ v => var_host v ++ var_path v ++ "/raw-file/" ++ var_revision v ++
                  "/.taskcluster.yml";
     errorTask := fun errorTemplate => errorTemplate;
     pushlog_getOne := fun _ _ => Ok the_push |}.

(** A world in which the queue service and the network follow the given
    scripts. *)
Definition world_with (queue_script : list (option exn))
    (net_script : list (result response)) : world :=
  {| drawn := 0; remote := queue_script; created := [];
     net := net_script; wire := []; console := [] |}.

Definition client : queue := {| credentials := tt; authorizedScopes := ["scope:a"] |}.

Definition variables : list (string * value) :=
  [("owner", VStr "dev@example.com"); ("revision", VStr "abcd"); ("level", VNum 3)].

Definition rejected : exn :=
  {| name := "Error"; message := "InsufficientScopes"; stack := "Error: InsufficientScopes" |}.

(** The graph of three tasks, submitted to a queue that accepts everything,
    and to one that rejects the second task. *)
Definition three_run : result unit * world :=
  scheduleTaskGroup client "try" t_three variables ["scope:a"] err_plain
    (world_with [] []).

Definition failing_run : result unit * world :=
  scheduleTaskGroup client "try" t_three variables ["scope:a"] err_plain
    (world_with [None; Some rejected] []).

Definition no_call : call :=
  {| via := client; taskId := ""; definition := VUndefined; outcome := None |}.

(** The tasks of that graph as rendered, the first of them, and the call that
    submits it. *)
Definition three_items : list value :=
  Eval vm_compute in
    match rendered_items "try" t_three variables err_plain (world_with [] []) with
    | Ok items => items
    | Throw _ => []
    end.

Definition first_item : value := Eval vm_compute in nth 0 three_items VUndefined.

Definition first_call : call := Eval vm_compute in nth 0 (created (snd three_run)) no_call.

(** The call the queue rejects. *)
Definition second_call : call := Eval vm_compute in nth 1 (created (snd failing_run)) no_call.

(** A job for a push to the try repository. *)
Definition cfg : config := {| config_try := err_plain; config_credentials := tt |}.

Definition job : job_data :=
  {| revision_hash := VStr "5ca1ab1e"; pushref_id := VNum 42;
     repo := {| url := "https://hg.mozilla.org/try/"; alias := "try" |} |}.

Definition graph_url : string :=
  "https://hg.mozilla.org/try/raw-file/abcd/.taskcluster.yml".

End Demo.


(* ================================================================== *)
(** ** Facts about the JavaScript fragment *)
(* ================================================================== *)

Section JsFacts.

Lemma lookup_update_same (k : string) (x : value) (ps : list (string * value)) :
  lookup k (update k x ps) = Some x.
Proof.
  induction ps as [|[k' v'] ps IH]; simpl.
  - now rewrite String.eqb_refl.
  - destruct (String.eqb k k') eqn:E; simpl; rewrite ?String.eqb_refl, ?E; auto.
Qed.

Lemma lookup_update_other (k k' : string) (x : value) (ps : list (string * value)) :
  k' <> k -> lookup k' (update k x ps) = lookup k' ps.
Proof.
  intros Hne.
  assert (Hk : String.eqb k' k = false) by now apply String.eqb_neq.
  induction ps as [|[k0 v0] ps IH]; simpl.
  - now rewrite Hk.
  - destruct (String.eqb k k0) eqn:E; simpl.
    + apply String.eqb_eq in E; subst k0. now rewrite Hk.
    + now rewrite IH.
Qed.

Lemma update_update (k : string) (x y : value) (ps : list (string * value)) :
  update k y (update k x ps) = update k y ps.
Proof.
  induction ps as [|[k' v'] ps IH]; simpl.
  - now rewrite String.eqb_refl.
  - destruct (String.eqb k k') eqn:E; simpl.
    + now rewrite String.eqb_refl.
    + now rewrite E, IH.
Qed.

Lemma put_put_same (v : value) (k : string) (x y : value) :
  put_field (put_field v k x) k y = put_field v k y.
Proof. destruct v; simpl; auto; now rewrite update_update. Qed.

Lemma set_field_accepts (v : value) (k : string) (x v' : value) :
  set_field v k x = Ok v' ->
  accepts_properties v = true /\ accepts_properties v' = true /\ v' = put_field v k x.
Proof.
  destruct v; simpl; intros E; inversion E; subst; auto.
Qed.

Lemma set_field_total (v : value) (k : string) (x : value) :
  accepts_properties v = true -> set_field v k x = Ok (put_field v k x).
Proof. destruct v; simpl; intros E; try discriminate; reflexivity. Qed.

Lemma get_put_same (v : value) (k : string) (x : value) :
  accepts_properties v = true -> get_field (put_field v k x) k = Ok x.
Proof.
  destruct v; simpl; intros E; try discriminate;
    unfold prop_or_undefined; now rewrite lookup_update_same.
Qed.

Lemma get_put_other (v : value) (k k' : string) (x : value) :
  k' <> k -> get_field (put_field v k x) k' = get_field v k'.
Proof.
  intros Hne.
  destruct v; simpl; auto;
    unfold prop_or_undefined; now rewrite lookup_update_other.
Qed.

Lemma put_accepts (v : value) (k : string) (x : value) :
  accepts_properties (put_field v k x) = accepts_properties v.
Proof. now destruct v. Qed.

(** A successful read of a property that is itself an object or an array
    comes from an object or an array. *)
Lemma get_field_accepts (v : value) (k : string) (x : value) :
  get_field v k = Ok x -> accepts_properties x = true -> accepts_properties v = true.
Proof.
  destruct v; simpl; intros E Hx; inversion E; subst; auto; discriminate.
Qed.

Lemma get_index_accepts (v : value) (x : value) :
  get_index v 0 = Ok x -> accepts_properties x = true -> accepts_properties v = true.
Proof.
  destruct v; simpl; intros E Hx; inversion E; subst; auto; try discriminate.
  unfold char_at in Hx. destruct (get 0 s); discriminate.
Qed.

Lemma get_put_index (v x y : value) :
  get_index v 0 = Ok x -> accepts_properties x = true ->
  get_index (put_index v 0 y) 0 = Ok y.
Proof.
  destruct v; simpl; intros E Hx; inversion E; subst; try discriminate.
  - unfold char_at in Hx. destruct (get 0 s); discriminate.
  - destruct elems; simpl in *; [discriminate|reflexivity].
  - unfold prop_or_undefined. now rewrite lookup_update_same.
Qed.






Lemma existsb_same_value_zero_strings (s : string) (seen : list string) :
  existsb (same_value_zero (VStr s)) (map VStr seen) = existsb (String.eqb s) seen.
Proof. induction seen as [|t seen IH]; simpl; auto. now rewrite IH. Qed.

Lemma fold_set_add_strings (l seen : list string) :
  fold_left set_add (map VStr l) (map VStr seen) = map VStr (fold_left add_scope l seen).
Proof.
  revert seen. induction l as [|s l IH]; intros seen; simpl; auto.
  unfold set_add at 2, add_scope at 2.
  rewrite existsb_same_value_zero_strings.
  destruct (existsb (String.eqb s) seen).
  - apply IH.
  - rewrite <- IH. now rewrite map_app.
Qed.

(** On strings, the [Set] keeps the distinct ones. *)
Lemma array_from_set_strings (l : list string) :
  array_from_set (map VStr l) = map VStr (distinct l).
Proof. exact (fold_set_add_strings l []). Qed.

Lemma In_fold_add_scope (l seen : list string) (s : string) :
  In s (fold_left add_scope l seen) <-> In s seen \/ In s l.
Proof.
  revert seen. induction l as [|x l IH]; intros seen; simpl.
  - tauto.
  - rewrite IH. unfold add_scope.
    destruct (existsb (String.eqb x) seen) eqn:E.
    + apply existsb_exists in E as (z & Hz & Ez). apply String.eqb_eq in Ez; subst z.
      split; [tauto|]. intros [Hin | [<- | Hin]]; auto.
    + rewrite in_app_iff. simpl. tauto.
Qed.

Lemma NoDup_fold_add_scope (l seen : list string) :
  NoDup seen -> NoDup (fold_left add_scope l seen).
Proof.
  revert seen. induction l as [|x l IH]; intros seen Hnd; simpl; auto.
  apply IH. unfold add_scope.
  destruct (existsb (String.eqb x) seen) eqn:E; auto.
  apply NoDup_app; auto.
  - constructor; [intros []|constructor].
  - intros y Hy [Hxy | []]. subst y.
    assert (existsb (String.eqb x) seen = true).
    { apply existsb_exists. exists x. split; auto. apply String.eqb_refl. }
    congruence.
Qed.

Lemma In_distinct (l : list string) (s : string) : In s (distinct l) <-> In s l.
Proof. unfold distinct. rewrite In_fold_add_scope. simpl. tauto. Qed.

Lemma NoDup_distinct (l : list string) : NoDup (distinct l).
Proof. apply NoDup_fold_add_scope. constructor. Qed.



Lemma get_field_TypeError (v : value) (k : string) (e : exn) :
  get_field v k = Throw e -> name e = "TypeError".
Proof. destruct v; simpl; intros E; inversion E; reflexivity. Qed.

Lemma set_field_TypeError (v : value) (k : string) (x : value) (e : exn) :
  set_field v k x = Throw e -> name e = "TypeError".
Proof. destruct v; simpl; intros E; inversion E; reflexivity. Qed.

Lemma accepts_truthy (v : value) : accepts_properties v = true -> truthy v = true.
Proof. destruct v; simpl; auto; discriminate. Qed.

End JsFacts.

(* ================================================================== *)
(** ** The loop of [scheduleTaskGroup] *)
(* ================================================================== *)

(** Simplification that leaves the operations of the fragment folded. *)
Tactic Notation "js_step" :=
  cbn -[get_field get_index set_field put_field put_index concat iterate
        array_from_set or_else truthy String.append to_string toString].
Tactic Notation "js_step" "in" "*" :=
  cbn -[get_field get_index set_field put_field put_index concat iterate
        array_from_set or_else truthy String.append to_string toString] in *.
Tactic Notation "js_step" "in" hyp(H) :=
  cbn -[get_field get_index set_field put_field put_index concat iterate
        array_from_set or_else truthy String.append to_string toString] in H.

(** Splitting of conjunctions, without entering quantified statements. *)
Ltac conjs := repeat match goal with |- _ /\ _ => split end.

Section LoopFacts.
Context `{Collaborators}.

(** One turn: it draws one identifier, leaves the network alone, and either
    stops on a throw before any call or makes exactly one [createTask] call
    with the prepared definition. *)
Lemma schedule_task_spec (client : queue) (project : string)
    (vars : list (string * value)) (scopes : list string) (g task : value) (w : world) :
  let out := schedule_task client project vars scopes g task w in
  let gid := group_id_in g w in
  drawn (snd out) = S (drawn w) /\ net (snd out) = net w /\ wire (snd out) = wire w /\
  match prepared scopes gid task with
  | Throw e =>
      fst out = Throw e /\ created (snd out) = created w /\ remote (snd out) = remote w
  | Ok def =>
      let served :=
        queue_createTask (credentials client) (authorizedScopes client) (remote w)
          (slugid_nice (drawn w)) def in
      created (snd out) =
        (created w ++
         [{| via := client; taskId := slugid_nice (drawn w); definition := def;
             outcome := snd served |}])%list /\
      remote (snd out) = fst served /\
      fst out = match snd served with None => Ok gid | Some e => Throw e end
  end.
Proof.
  unfold schedule_task, prepared, task_definition, group_id_in.
  unfold bindM, lift, nice, try_catch, createTask, console_log, throw, ret.
  js_step.
  destruct (get_field task "task") as [inner|e]; js_step; [|repeat split].
  destruct (get_field _ "scopes") as [declared|e]; js_step; [|repeat split].
  destruct (concat _ scopes) as [joined|e]; js_step; [|repeat split].
  destruct (iterate joined) as [taskScopes|e]; js_step; [|repeat split].
  destruct (set_field _ "scopes" _) as [def1|e]; js_step; [|repeat split].
  destruct (set_field def1 "taskGroupId" _) as [def2|e]; js_step; [|repeat split].
  destruct (queue_createTask _ _ _ _ _) as [remote' [e|]]; cbn; repeat split.
Qed.

Lemma group_id_in_fixed (g : value) (w w1 : world) :
  truthy (group_id_in g w) = true -> group_id_in (group_id_in g w) w1 = group_id_in g w.
Proof. intros Ht. unfold group_id_in at 1. now rewrite Ht. Qed.

(** The loop: the calls it makes are the prepared definitions of a prefix of
    the tasks, in order, under identifiers drawn in order; nothing else touches
    the queue service; a failed call is the last one and its failure is the
    result; a normal end means every task was submitted. *)
Lemma schedule_tasks_spec (client : queue) (project : string)
    (vars : list (string * value)) (scopes : list string) (items : list value) :
  forall (g : value) (w : world),
  let out := schedule_tasks client project vars scopes g items w in
  exists calls,
    created (snd out) = (created w ++ calls)%list /\
    remote (snd out) = replay (remote w) calls /\
    net (snd out) = net w /\ wire (snd out) = wire w /\
    (forall i c, nth_error calls i = Some c ->
       via c = client /\ taskId c = slugid_nice (drawn w + i) /\
       exists task g',
         nth_error items i = Some task /\
         prepared scopes g' task = Ok (definition c) /\
         (truthy (group_id_in g w) = true -> g' = group_id_in g w)) /\
    (forall i c e, nth_error calls i = Some c -> outcome c = Some e ->
       fst out = Throw e /\ List.length calls = S i) /\
    (fst out = Ok tt -> List.length calls = List.length items).
Proof.
  induction items as [|task rest IH]; intros g w out.
  - exists []. subst out. simpl. rewrite app_nil_r.
    conjs; auto; intros [|i] c; simpl; discriminate.
  - subst out. simpl. unfold bindM.
    pose proof (schedule_task_spec client project vars scopes g task w) as Hstep.
    cbv zeta in Hstep.
    destruct (schedule_task client project vars scopes g task w) as [r1 w1].
    simpl in Hstep. destruct Hstep as (Hd & Hn & Hw & Hstep).
    destruct (prepared scopes (group_id_in g w) task) as [def|e] eqn:Hprep.
    + cbv zeta in Hstep. unfold replay; fold replay.
      destruct (queue_createTask (credentials client) (authorizedScopes client)
                  (remote w) (slugid_nice (drawn w)) def) as [remote' o] eqn:Hserved.
      simpl in Hstep. destruct Hstep as (Hc & Hr & Hres).
      set (c0 := {| via := client; taskId := slugid_nice (drawn w); definition := def;
                    outcome := o |}) in *.
      assert (Hreplay : forall calls, replay (remote w) (c0 :: calls) = replay remote' calls).
      { intros calls. simpl. now rewrite Hserved. }
      assert (Hfirst : via c0 = client /\ taskId c0 = slugid_nice (drawn w + 0) /\
                exists task0 g', nth_error (task :: rest) 0 = Some task0 /\
                  prepared scopes g' task0 = Ok (definition c0) /\
                  (truthy (group_id_in g w) = true -> g' = group_id_in g w)).
      { conjs; [reflexivity | simpl; now rewrite Nat.add_0_r | ].
        exists task, (group_id_in g w). conjs; auto. }
      assert (Hout : outcome c0 = o) by reflexivity.
      destruct o as [e|]; subst r1.
      * exists [c0]. rewrite Hreplay. simpl. rewrite Hc, Hr, Hn, Hw. conjs; auto.
        -- intros [|i] c Hnth; simpl in Hnth; [|destruct i; discriminate].
           inversion Hnth; subst c. exact Hfirst.
        -- intros [|i] c e' Hnth Ho; simpl in Hnth; [|destruct i; discriminate].
           inversion Hnth; subst c. split; [congruence|reflexivity].
        -- discriminate.
      * specialize (IH (group_id_in g w) w1). cbv zeta in IH.
        destruct IH as (calls & Hc' & Hr' & Hn' & Hw' & Hpos & Hfail & Hok).
        exists (c0 :: calls).
        rewrite Hreplay, Hc', Hc, Hr', Hr, Hn', Hn, Hw', Hw, <- app_assoc. simpl.
        conjs; auto.
        -- intros [|i] c Hnth; simpl in Hnth.
           ++ inversion Hnth; subst c. exact Hfirst.
           ++ destruct (Hpos i c Hnth) as (Hvia & Hid & task' & g' & Ht & Hp & Hg).
              conjs; auto.
              ** rewrite Hid, Hd. f_equal. lia.
              ** exists task', g'. conjs; auto.
                 intros Htruthy. rewrite <- (group_id_in_fixed g w w1 Htruthy).
                 apply Hg. now rewrite group_id_in_fixed.
        -- intros [|i] c e Hnth Ho; simpl in Hnth.
           ++ inversion Hnth; subst c. congruence.
           ++ destruct (Hfail i c e Hnth Ho) as [Hres Hlen]. split; [exact Hres|].
              now rewrite Hlen.
    + destruct Hstep as (Hres & Hc & Hr). subst r1.
      exists []. simpl. rewrite app_nil_r.
      conjs; auto; try discriminate; intros [|i] c; simpl; discriminate.
Qed.

End LoopFacts.

(* ================================================================== *)
(** ** [scheduleTaskGroup] as a whole *)
(* ================================================================== *)

Section SubmitterFacts.
Context `{Collaborators}.

(** Rendering, with or without the fallback, only writes to the console. *)
Lemma render_or_report_frame (project template : string)
    (vars : list (string * value)) (errT : string) (w : world) :
  let out := render_or_report project template vars errT w in
  drawn (snd out) = drawn w /\ remote (snd out) = remote w /\
  created (snd out) = created w /\ net (snd out) = net w /\ wire (snd out) = wire w.
Proof.
  unfold render_or_report, try_catch, lift, bindM, console_log.
  destruct (renderTemplate project template vars) as [rt|e]; js_step; [conjs; reflexivity|].
  destruct (instantiate errT vars) as [rt|e']; js_step; conjs; reflexivity.
Qed.

(** The definition handed to [createTask] carries the group identifier of the
    turn, whatever the template said. *)
Lemma prepared_taskGroupId (scopes : list string) (g task def : value) :
  prepared scopes g task = Ok def -> get_field def "taskGroupId" = Ok g.
Proof.
  unfold prepared. intros E.
  destruct (task_definition task) as [d|]; js_step; [|discriminate].
  js_step in E.
  destruct (get_field d "scopes") as [declared|]; [|discriminate]. js_step in E.
  destruct (concat _ scopes) as [joined|]; [|discriminate]. js_step in E.
  destruct (iterate joined) as [ts|]; [|discriminate]. js_step in E.
  destruct (set_field d "scopes" _) as [d1|] eqn:E1; [|discriminate]. js_step in E.
  apply set_field_accepts in E1 as (_ & Hd1 & _).
  apply set_field_accepts in E as (_ & _ & ->).
  now apply get_put_same.
Qed.

(** Its other properties are those of the task's definition. *)
Lemma prepared_frame (scopes : list string) (g task def : value) (k : string) :
  prepared scopes g task = Ok def ->
  k <> "scopes" -> k <> "taskGroupId" ->
  exists d, task_definition task = Ok d /\ accepts_properties d = true /\
            get_field def k = get_field d k.
Proof.
  unfold prepared. intros E Hk1 Hk2.
  destruct (task_definition task) as [d|]; [|discriminate]. js_step in E.
  destruct (get_field d "scopes") as [declared|]; [|discriminate]. js_step in E.
  destruct (concat _ scopes) as [joined|]; [|discriminate]. js_step in E.
  destruct (iterate joined) as [ts|]; [|discriminate]. js_step in E.
  destruct (set_field d "scopes" _) as [d1|] eqn:E1; [|discriminate]. js_step in E.
  apply set_field_accepts in E1 as (Hd & _ & ->).
  apply set_field_accepts in E as (_ & _ & ->).
  exists d. conjs; auto. now rewrite !get_put_other.
Qed.

(** Its scopes, for a task that declares a list of strings or nothing. *)
Lemma prepared_scopes (scopes : list string) (g task def d : value) (ds : list string) :
  prepared scopes g task = Ok def ->
  declared_scopes task = Ok d -> declares d ds ->
  get_field def "scopes" = Ok (VArr (map VStr (distinct (ds ++ scopes))) []).
Proof.
  unfold prepared, declared_scopes. intros E Hd Hds.
  destruct (task_definition task) as [td|]; [|discriminate].
  js_step in E. js_step in Hd. rewrite Hd in E. js_step in E.
  assert (Hjoin : concat (or_else d (VArr [] [])) scopes =
                  Ok (VArr (map VStr (ds ++ scopes)) [])).
  { destruct Hds as [[Hf ->] | [ps ->]].
    - unfold or_else. rewrite Hf. reflexivity.
    - unfold or_else. simpl. now rewrite map_app. }
  rewrite Hjoin in E. js_step in E. unfold iterate in E. js_step in E.
  rewrite array_from_set_strings in E.
  destruct (set_field td "scopes" _) as [d1|] eqn:E1; [|discriminate]. js_step in E.
  apply set_field_accepts in E1 as (Htd & _ & ->).
  apply set_field_accepts in E as (_ & _ & ->).
  rewrite get_put_other by discriminate. now apply get_put_same.
Qed.



(** The calls of a whole run of [scheduleTaskGroup], read against the tasks
    of the rendered graph. *)
Lemma scheduleTaskGroup_calls (client : queue) (project template : string)
    (vars : list (string * value)) (scopes : list string) (errT : string) (w : world) :
  let out := scheduleTaskGroup client project template vars scopes errT w in
  exists calls,
    created (snd out) = (created w ++ calls)%list /\
    remote (snd out) = replay (remote w) calls /\
    net (snd out) = net w /\ wire (snd out) = wire w /\
    (forall i c, nth_error calls i = Some c ->
       via c = client /\ taskId c = slugid_nice (drawn w + i) /\
       exists items task g',
         rendered_items project template vars errT w = Ok items /\
         nth_error items i = Some task /\
         prepared scopes g' task = Ok (definition c) /\
         (slugid_nice (drawn w) <> "" -> g' = VStr (slugid_nice (drawn w)))) /\
    (forall i c e, nth_error calls i = Some c -> outcome c = Some e ->
       fst out = Throw e /\ List.length calls = S i) /\
    (fst out = Ok tt ->
       exists items, rendered_items project template vars errT w = Ok items /\
                     List.length calls = List.length items).
Proof.
  unfold scheduleTaskGroup, rendered_items, graph_tasks, bindM, lift.
  pose proof (render_or_report_frame project template vars errT w) as Hframe.
  cbv zeta in Hframe.
  destruct (render_or_report project template vars errT w) as [[rt|e] w1];
    simpl in Hframe; destruct Hframe as (Hd & Hr & Hc & Hn & Hw); js_step.
  2:{ exists []. rewrite app_nil_r. simpl. conjs; auto; try discriminate;
      intros [|i] c; simpl; discriminate. }
  destruct (get_field rt "tasks") as [tasks|e]; js_step.
  2:{ exists []. rewrite app_nil_r. simpl. conjs; auto; try discriminate;
      intros [|i] c; simpl; discriminate. }
  destruct (iterate tasks) as [items|e]; js_step.
  2:{ exists []. rewrite app_nil_r. simpl. conjs; auto; try discriminate;
      intros [|i] c; simpl; discriminate. }
  destruct (schedule_tasks_spec client project vars scopes items VUndefined w1)
    as (calls & Hc' & Hr' & Hn' & Hw' & Hpos & Hfail & Hok).
  exists calls. rewrite Hc', Hr', Hn', Hw', Hc, Hr, Hn, Hw. conjs; auto.
  - intros i c Hnth.
    destruct (Hpos i c Hnth) as (Hvia & Hid & task & g' & Ht & Hp & Hg).
    rewrite Hd in Hid. conjs; auto.
    exists items, task, g'. conjs; auto.
    intros Hne. unfold group_id_in in Hg. simpl in Hg. rewrite Hd in Hg.
    apply Hg. apply String.eqb_neq in Hne. now rewrite Hne.
  - intros Hend. exists items. split; auto.
Qed.

(** A first task that can be prepared is submitted. *)
Lemma schedule_tasks_first (client : queue) (project : string)
    (vars : list (string * value)) (scopes : list string)
    (task : value) (rest : list value) (g : value) (w : world) (def : value) :
  prepared scopes (group_id_in g w) task = Ok def ->
  exists c calls,
    created (snd (schedule_tasks client project vars scopes g (task :: rest) w)) =
      (created w ++ c :: calls)%list /\
    definition c = def /\ taskId c = slugid_nice (drawn w).
Proof.
  intros Hprep. simpl. unfold bindM.
  pose proof (schedule_task_spec client project vars scopes g task w) as Hstep.
  cbv zeta in Hstep. rewrite Hprep in Hstep.
  destruct (schedule_task client project vars scopes g task w) as [r1 w1].
  cbn [fst snd] in Hstep. destruct Hstep as (_ & _ & _ & Hc & _ & Hres).
  eexists. destruct r1 as [g1|e].
  - destruct (schedule_tasks_spec client project vars scopes rest g1 w1)
      as (calls & Hc' & _).
    exists calls. rewrite Hc', Hc, <- app_assoc. simpl. conjs; reflexivity.
  - exists []. cbn [snd]. rewrite Hc. conjs; reflexivity.
Qed.

Lemma scheduleTaskGroup_first (client : queue) (project template : string)
    (vars : list (string * value)) (scopes : list string) (errT : string) (w : world)
    (task : value) (rest : list value) (def : value) :
  rendered_items project template vars errT w = Ok (task :: rest) ->
  prepared scopes (VStr (slugid_nice (drawn w))) task = Ok def ->
  exists c calls,
    created (snd (scheduleTaskGroup client project template vars scopes errT w)) =
      (created w ++ c :: calls)%list /\
    definition c = def /\ taskId c = slugid_nice (drawn w).
Proof.
  unfold scheduleTaskGroup, rendered_items, graph_tasks, bindM, lift.
  pose proof (render_or_report_frame project template vars errT w) as Hframe.
  cbv zeta in Hframe.
  destruct (render_or_report project template vars errT w) as [[rt|e] w1];
    cbn [fst snd] in *; js_step; [|discriminate].
  destruct Hframe as (Hd & _ & Hc & _ & _).
  destruct (get_field rt "tasks") as [tasks|e]; js_step; [|discriminate].
  destruct (iterate tasks) as [items|e]; js_step; [|discriminate].
  intros Hitems Hprep. inversion Hitems; subst items.
  rewrite <- Hc, <- Hd. apply schedule_tasks_first.
  unfold group_id_in. simpl. now rewrite Hd.
Qed.

(** A definition that takes properties and declares a list of scopes, or
    none, can always be prepared. *)
Lemma prepared_total (scopes : list string) (g task d dec : value) (ds : list string) :
  task_definition task = Ok d -> accepts_properties d = true ->
  get_field d "scopes" = Ok dec -> declares dec ds ->
  exists def, prepared scopes g task = Ok def.
Proof.
  intros Htd Hacc Hdec Hds. unfold prepared. rewrite Htd. js_step.
  rewrite Hdec. js_step.
  assert (Hjoin : concat (or_else dec (VArr [] [])) scopes =
                  Ok (VArr (map VStr (ds ++ scopes)) [])).
  { destruct Hds as [[Hf ->] | [ps ->]].
    - unfold or_else. rewrite Hf. reflexivity.
    - unfold or_else. simpl. now rewrite map_app. }
  rewrite Hjoin. js_step. unfold iterate. js_step.
  rewrite (set_field_total d "scopes" _ Hacc). js_step.
  rewrite set_field_total by now rewrite put_accepts.
  eexists. reflexivity.
Qed.

End SubmitterFacts.

Section SubmitterMore.
Context `{Collaborators}.

(** Whether a task can be prepared, and the error when it cannot, depend
    neither on the scopes nor on the group identifier. *)
Lemma prepared_error_irrelevant (scopes scopes' : list string) (g g' task : value) (e : exn) :
  prepared scopes g task = Throw e -> prepared scopes' g' task = Throw e.
Proof.
  unfold prepared.
  destruct (task_definition task) as [d|]; js_step; auto.
  destruct (get_field d "scopes") as [declared|]; js_step; auto.
  destruct (or_else declared (VArr [] [])) as [| | | |text|elems ps|];
    simpl concat; js_step; auto;
    unfold iterate; js_step;
    destruct d; cbn [set_field Js.bind]; intros E; try discriminate E; exact E.
Qed.

Lemma well_formed_prepared (scopes : list string) (g task : value) :
  well_formed_task task -> exists def, prepared scopes g task = Ok def.
Proof.
  intros (d & declared & ds & Htd & Hacc & Hdec & Hds).
  exact (prepared_total scopes g task d declared ds Htd Hacc Hdec Hds).
Qed.

(** The run of [scheduleTaskGroup] on a rendered graph is the loop over its
    tasks, started with no group identifier, in a world that differs from the
    initial one by the console only. *)
Lemma scheduleTaskGroup_run (client : queue) (project template : string)
    (vars : list (string * value)) (scopes : list string) (errT : string) (w : world)
    (items : list value) :
  rendered_items project template vars errT w = Ok items ->
  exists w1,
    same_queue w w1 /\ net w1 = net w /\ wire w1 = wire w /\
    scheduleTaskGroup client project template vars scopes errT w =
    schedule_tasks client project vars scopes VUndefined items w1.
Proof.
  unfold scheduleTaskGroup, rendered_items, graph_tasks, bindM, lift.
  pose proof (render_or_report_frame project template vars errT w) as Hframe.
  cbv zeta in Hframe.
  destruct (render_or_report project template vars errT w) as [[rt|e] w1];
    cbn [fst snd] in *; js_step; [|discriminate].
  destruct Hframe as (Hd & Hr & Hc & Hn & Hw).
  destruct (get_field rt "tasks") as [tasks|e]; js_step; [|discriminate].
  destruct (iterate tasks) as [items0|e]; js_step; [|discriminate].
  intros E. inversion E; subst items0.
  exists w1. unfold same_queue. conjs; auto.
Qed.

(** The loop on a queue that accepts every call. *)
Lemma schedule_tasks_accepting (client : queue) (project : string)
    (vars : list (string * value)) (scopes : list string) :
  (forall service id def,
     snd (queue_createTask (credentials client) (authorizedScopes client)
            service id def) = None) ->
  forall (pre : list value) (g : value) (w : world),
  Forall well_formed_task pre ->
  (forall post,
     match post with
     | [] =>
         let out := schedule_tasks client project vars scopes g pre w in
         fst out = Ok tt /\
         exists calls, created (snd out) = (created w ++ calls)%list /\
                       List.length calls = List.length pre
     | bad :: rest =>
         forall e, prepared scopes VUndefined bad = Throw e ->
         let out := schedule_tasks client project vars scopes g (pre ++ bad :: rest) w in
         fst out = Throw e /\
         exists calls, created (snd out) = (created w ++ calls)%list /\
                       List.length calls = List.length pre
     end).
Proof.
  intros Haccept. induction pre as [|task pre IH]; intros g w Hwf post.
  - destruct post as [|bad rest].
    + simpl. split; auto. exists []. now rewrite app_nil_r.
    + intros e Hbad. cbn [app schedule_tasks]. unfold bindM.
      pose proof (schedule_task_spec client project vars scopes g bad w) as Hstep.
      cbv zeta in Hstep.
      rewrite (prepared_error_irrelevant _ scopes _ (group_id_in g w) _ _ Hbad) in Hstep.
      destruct (schedule_task client project vars scopes g bad w) as [r1 w1].
      cbn [fst snd] in Hstep. destruct Hstep as (_ & _ & _ & -> & Hc & _).
      cbn [fst snd]. split; auto. exists []. now rewrite app_nil_r.
  - inversion Hwf as [|? ? Htask Hrest]; subst.
    destruct (well_formed_prepared scopes (group_id_in g w) task Htask) as [def Hprep].
    pose proof (schedule_task_spec client project vars scopes g task w) as Hstep.
    cbv zeta in Hstep. rewrite Hprep in Hstep. rewrite Haccept in Hstep.
    destruct (schedule_task client project vars scopes g task w) as [r1 w1] eqn:Hrun.
    cbn [fst snd] in Hstep. destruct Hstep as (_ & _ & _ & Hc & _ & ->).
    specialize (IH (group_id_in g w) w1 Hrest post).
    destruct post as [|bad rest].
    + cbn [schedule_tasks]. unfold bindM. rewrite Hrun.
      cbv zeta in IH. destruct IH as (Hok & calls & Hc' & Hlen).
      split; auto. eexists. rewrite Hc', Hc, <- app_assoc. split; [reflexivity|].
      simpl. now rewrite Hlen.
    + intros e Hbad. cbn [app schedule_tasks]. unfold bindM. rewrite Hrun.
      destruct (IH e Hbad) as (Hres & calls & Hc' & Hlen).
      split; auto. eexists. rewrite Hc', Hc, <- app_assoc. split; [reflexivity|].
      simpl. now rewrite Hlen.
Qed.

(** Two lists of one length are related element by element when they are
    related position by position. *)
Lemma Forall2_by_position {A B} (R : A -> B -> Prop) (l1 : list A) :
  forall l2 : list B,
  List.length l2 = List.length l1 ->
  (forall i a b, nth_error l1 i = Some a -> nth_error l2 i = Some b -> R a b) ->
  Forall2 R l1 l2.
Proof.
  induction l1 as [|a l1 IH]; intros [|b l2] Hlen Hpos; simpl in Hlen;
    try discriminate; constructor.
  - exact (Hpos 0 a b eq_refl eq_refl).
  - apply IH; [lia|]. intros i a' b' Ha Hb. exact (Hpos (S i) a' b' Ha Hb).
Qed.

End SubmitterMore.

(* ================================================================== *)
(** ** Properties of the submitter *)
(* ================================================================== *)

Section Submitter.
Context `{Collaborators}.

(** C1. One group identity per graph.  The group identifier of a run is the
    identifier drawn for its first task (slugid hands out non-empty
    identifiers).
    - Every [createTask] call carries, at the moment of the call, a
      [taskGroupId] equal to it: the definition submitted for the i-th task is
      the one the loop prepares from that task under this identifier, so a
      [taskGroupId] of the template is overwritten, and the field is set
      before the call.
    - The first task of the rendered graph is submitted, under that very
      identifier as its task identifier, as soon as it can be prepared.
    - When every task of the graph is well formed and the queue accepts every
      call, the run ends normally and the calls are the tasks of the graph, one
      by one and in order, each with that [taskGroupId].
    - A run that ends normally has submitted every task of the graph. *)
Theorem group_id_shared (client : queue) (project template : string)
    (vars : list (string * value)) (scopes : list string) (errT : string) (w : world) :
  slugid_nice (drawn w) <> "" ->
  let out := scheduleTaskGroup client project template vars scopes errT w in
  let gid := slugid_nice (drawn w) in
  exists calls,
    created (snd out) = (created w ++ calls)%list /\
    (forall c, hd_error calls = Some c -> taskId c = gid) /\
    (forall i c, nth_error calls i = Some c ->
       get_field (definition c) "taskGroupId" = Ok (VStr gid) /\
       exists items task,
         rendered_items project template vars errT w = Ok items /\
         nth_error items i = Some task /\
         prepared scopes (VStr gid) task = Ok (definition c)) /\
    (fst out = Ok tt ->
       exists items, rendered_items project template vars errT w = Ok items /\
                     List.length calls = List.length items) /\
    (forall task rest def,
       rendered_items project template vars errT w = Ok (task :: rest) ->
       prepared scopes (VStr gid) task = Ok def ->
       exists c, hd_error calls = Some c /\ definition c = def /\ taskId c = gid) /\
    ((forall service id def,
        snd (queue_createTask (credentials client) (authorizedScopes client)
               service id def) = None) ->
     forall items,
       rendered_items project template vars errT w = Ok items ->
       Forall well_formed_task items ->
       fst out = Ok tt /\
       Forall2
         (fun task c =>
            prepared scopes (VStr gid) task = Ok (definition c) /\
            get_field (definition c) "taskGroupId" = Ok (VStr gid))
         items calls).
Proof.
  intros Hne out gid.
  destruct (scheduleTaskGroup_calls client project template vars scopes errT w)
    as (calls & Hc & _ & _ & _ & Hpos & _ & Hok).
  assert (Hgroup : forall i c, nth_error calls i = Some c ->
            get_field (definition c) "taskGroupId" = Ok (VStr gid) /\
            exists items task,
              rendered_items project template vars errT w = Ok items /\
              nth_error items i = Some task /\
              prepared scopes (VStr gid) task = Ok (definition c)).
  { intros i c Hnth.
    destruct (Hpos i c Hnth) as (_ & _ & items & task & g' & Hi & Ht & Hp & Hg).
    rewrite (Hg Hne) in Hp. split.
    - exact (prepared_taskGroupId _ _ _ _ Hp).
    - exists items, task. auto. }
  exists calls. conjs; auto.
  - intros c Hhd. destruct calls as [|c0 calls]; [discriminate|].
    inversion Hhd; subst c0.
    destruct (Hpos 0 c eq_refl) as (_ & Hid & _).
    now rewrite Nat.add_0_r in Hid.
  - intros task rest def Hitems Hprep.
    destruct (scheduleTaskGroup_first client project template vars scopes errT w
                task rest def Hitems Hprep) as (c & calls' & Hc' & Hdef & Hid).
    fold out in Hc, Hc'. rewrite Hc in Hc'. apply app_inv_head in Hc'. subst calls.
    exists c. conjs; auto.
  - intros Haccept items Hitems Hwf.
    destruct (scheduleTaskGroup_run client project template vars scopes errT w items Hitems)
      as (w1 & (_ & _ & Hc1) & _ & _ & Hrun).
    destruct (schedule_tasks_accepting client project vars scopes Haccept items
                VUndefined w1 Hwf []) as (Hend & calls' & Hc' & Hlen).
    rewrite <- Hrun in Hend, Hc'. fold out in Hend, Hc', Hc.
    rewrite Hc1, Hc in Hc'. apply app_inv_head in Hc'. subst calls'.
    split; [exact Hend|].
    apply Forall2_by_position; [exact Hlen|].
    intros i task c Htask Hcall.
    destruct (Hgroup i c Hcall) as (Hgid & items' & task' & Hi & Ht & Hp).
    rewrite Hitems in Hi. inversion Hi; subst items'.
    rewrite Htask in Ht. inversion Ht; subst task'. split; assumption.
Qed.

(** C2. The scopes written onto a submitted task.  For the i-th task of the
    rendered graph, declaring the scopes [ds] (a list of strings, or nothing),
    the definition handed to the i-th [createTask] call has as [scopes] the
    distinct strings of [ds] followed by the caller's scopes: no duplicates,
    and exactly the members of either. *)
Theorem scopes_are_union (client : queue) (project template : string)
    (vars : list (string * value)) (scopes : list string) (errT : string) (w : world)
    (items : list value) (calls : list call) (i : nat) (task : value) (c : call)
    (d : value) (ds : list string) :
  let out := scheduleTaskGroup client project template vars scopes errT w in
  rendered_items project template vars errT w = Ok items ->
  nth_error items i = Some task ->
  declared_scopes task = Ok d -> declares d ds ->
  created (snd out) = (created w ++ calls)%list ->
  nth_error calls i = Some c ->
  exists us,
    get_field (definition c) "scopes" = Ok (VArr (map VStr us) []) /\
    us = distinct (ds ++ scopes) /\
    NoDup us /\
    (forall s, In s us <-> In s ds \/ In s scopes).
Proof.
  intros out Hitems Htask Hd Hds Hcreated Hnth.
  destruct (scheduleTaskGroup_calls client project template vars scopes errT w)
    as (calls' & Hc & _ & _ & _ & Hpos & _ & _).
  fold out in Hc. rewrite Hcreated in Hc. apply app_inv_head in Hc. subst calls'.
  destruct (Hpos i c Hnth) as (_ & _ & items' & task' & g' & Hi & Ht & Hp & _).
  rewrite Hitems in Hi. inversion Hi; subst items'.
  rewrite Htask in Ht. inversion Ht; subst task'.
  exists (distinct (ds ++ scopes)). conjs.
  - exact (prepared_scopes _ _ _ _ _ _ Hp Hd Hds).
  - reflexivity.
  - apply NoDup_distinct.
  - intros s. rewrite In_distinct. apply in_app_iff.
Qed.

(** C3. Partial failure.  If the call numbered [k] (from 0) of a run fails
    with [e], the run ends with [e] thrown to the caller, that call is the
    last one (exactly [k + 1] calls were made), the calls before it all
    succeeded, and the queue service is left as those calls left it: nothing
    is undone. *)
Theorem failure_stops_submission (client : queue) (project template : string)
    (vars : list (string * value)) (scopes : list string) (errT : string) (w : world)
    (calls : list call) (k : nat) (c : call) (e : exn) :
  let out := scheduleTaskGroup client project template vars scopes errT w in
  created (snd out) = (created w ++ calls)%list ->
  nth_error calls k = Some c ->
  outcome c = Some e ->
  fst out = Throw e /\
  List.length calls = S k /\
  (forall j c', j < k -> nth_error calls j = Some c' -> outcome c' = None) /\
  remote (snd out) = replay (remote w) calls.
Proof.
  intros out Hcreated Hnth Hout.
  destruct (scheduleTaskGroup_calls client project template vars scopes errT w)
    as (calls' & Hc & Hr & _ & _ & _ & Hfail & _).
  fold out in Hc, Hr, Hfail. rewrite Hcreated in Hc. apply app_inv_head in Hc. subst calls'.
  destruct (Hfail k c e Hnth Hout) as [Hres Hlen]. conjs; auto.
  intros j c' Hlt Hj.
  destruct (outcome c') as [e'|] eqn:Ho; auto.
  destruct (Hfail j c' e' Hj Ho) as [_ Hlen']. lia.
Qed.

End Submitter.

(* ================================================================== *)
(** ** The error-template fallback *)
(* ================================================================== *)

Section FallbackFacts.
Context `{Collaborators}.

(** Writing a payload back and reading it again: the graph keeps its number
    of tasks, and its first task is the former one with the new
    [task.payload]. *)
Lemma first_payload_with (rt payload payload' : value) :
  first_payload rt = Ok payload ->
  accepts_properties payload = true ->
  exists rt',
    with_first_payload rt payload' = Ok rt' /\
    first_payload rt' = Ok payload' /\
    (forall items, graph_tasks rt = Ok items ->
       exists first task rest',
         hd_error items = Some first /\
         get_field first "task" = Ok task /\
         accepts_properties first = true /\ accepts_properties task = true /\
         graph_tasks rt' =
           Ok (put_field first "task" (put_field task "payload" payload') :: rest') /\
         List.length rest' = List.length (tl items)).
Proof.
  unfold first_payload, with_first_payload, graph_tasks. intros E Hp.
  destruct (get_field rt "tasks") as [tasks|] eqn:E1; [|discriminate]. js_step in *.
  destruct (get_index tasks 0) as [first|] eqn:E2; [|discriminate]. js_step in *.
  destruct (get_field first "task") as [task|] eqn:E3; [|discriminate]. js_step in *.
  pose proof (get_field_accepts _ _ _ E Hp) as Ht.
  pose proof (get_field_accepts _ _ _ E3 Ht) as Hf.
  pose proof (get_index_accepts _ _ E2 Hf) as Hts.
  pose proof (get_field_accepts _ _ _ E1 Hts) as Hrt.
  js_step. eexists. split; [reflexivity|].
  rewrite (get_put_same rt "tasks" _ Hrt). js_step.
  rewrite (get_put_index tasks first _ E2 Hf). js_step.
  rewrite (get_put_same first "task" _ Hf). js_step.
  split; [now apply get_put_same|].
  intros items Hit. destruct tasks; try discriminate.
  simpl in Hit. inversion Hit; subst items. simpl in E2.
  destruct elems as [|first0 rest]; simpl in E2; inversion E2; subst.
  - discriminate.
  - exists first, task, rest. simpl. conjs; auto.
Qed.

(** The two assignments of the fallback, for a first task whose payload is an
    object and whose environment is an object or missing. *)
Lemma set_error_message_spec (rt payload env : value) (e : exn) :
  first_payload rt = Ok payload ->
  accepts_properties payload = true ->
  get_field payload "env" = Ok env ->
  accepts_properties (or_else env (VObj [])) = true ->
  let payload' :=
    put_field payload "env"
      (put_field (or_else env (VObj [])) "ERROR_MSG" (VStr (toString e))) in
  exists rt',
    set_error_message rt e = Ok rt' /\
    first_payload rt' = Ok payload' /\
    (forall items, graph_tasks rt = Ok items ->
       exists first task rest',
         hd_error items = Some first /\
         get_field first "task" = Ok task /\
         accepts_properties first = true /\ accepts_properties task = true /\
         graph_tasks rt' =
           Ok (put_field first "task" (put_field task "payload" payload') :: rest') /\
         List.length rest' = List.length (tl items)).
Proof.
  intros Hfp Hp Henv Hacc payload'. unfold set_error_message.
  rewrite Hfp. js_step. rewrite Henv. js_step.
  rewrite (set_field_total payload "env" _ Hp). js_step.
  destruct (first_payload_with rt payload
              (put_field payload "env" (or_else env (VObj []))) Hfp Hp)
    as (rt1 & Hw1 & Hfp1 & Hit1).
  rewrite Hw1. js_step. rewrite Hfp1. js_step.
  rewrite (get_put_same payload "env" _ Hp). js_step.
  rewrite (set_field_total _ "ERROR_MSG" _ Hacc). js_step.
  assert (Hp1 : accepts_properties (put_field payload "env" (or_else env (VObj []))) = true)
    by now rewrite put_accepts.
  rewrite put_put_same. fold payload'.
  destruct (first_payload_with rt1 _ payload' Hfp1 Hp1) as (rt2 & Hw2 & Hfp2 & Hit2).
  exists rt2. conjs; auto.
  intros items Hit.
  destruct (Hit1 items Hit) as (first & task & rest1 & Hhd & Htask & Hf & Ht & Hi1 & Hl1).
  destruct (Hit2 _ Hi1) as (first1 & task1 & rest2 & Hhd1 & Htask1 & _ & _ & Hi2 & Hl2).
  simpl in Hhd1. inversion Hhd1; subst first1.
  rewrite (get_put_same first "task" _ Hf) in Htask1. inversion Htask1; subst task1.
  exists first, task, rest2. conjs; auto.
  - rewrite Hi2. now rewrite !put_put_same.
  - simpl in Hl2. congruence.
Qed.

End FallbackFacts.

(* ================================================================== *)
(** ** Properties of the renderer *)
(* ================================================================== *)

Section Renderer.
Context `{Collaborators}.

(** What the fallback does once rendering has failed with [e]. *)
Lemma render_or_report_failed (project template : string)
    (vars : list (string * value)) (errT : string) (w : world) (e : exn) :
  renderTemplate project template vars = Throw e ->
  fst (render_or_report project template vars errT w) =
    (let* rt := instantiate errT vars in set_error_message rt e).
Proof.
  intros E. unfold render_or_report, try_catch, lift, bindM, console_log.
  rewrite E. js_step. destruct (instantiate errT vars); reflexivity.
Qed.


(** C8 (as amended).  In the fallback, what is created only when missing is
    the environment: a first task without [payload.env] gets one holding
    [ERROR_MSG] alone, an existing environment keeps its other entries.
    [ERROR_MSG] itself is set to [e.toString()] in every case, whatever value
    the rendered error task had there. *)
Theorem error_message_always_set (project template : string)
    (vars : list (string * value)) (errT : string) (w : world)
    (e : exn) (rt payload env : value) :
  renderTemplate project template vars = Throw e ->
  instantiate errT vars = Ok rt ->
  first_payload rt = Ok payload ->
  accepts_properties payload = true ->
  get_field payload "env" = Ok env ->
  accepts_properties (or_else env (VObj [])) = true ->
  exists rt' env',
    fst (render_or_report project template vars errT w) = Ok rt' /\
    first_env rt' = Ok env' /\
    get_field env' "ERROR_MSG" = Ok (VStr (toString e)) /\
    (truthy env = false -> env' = VObj [("ERROR_MSG", VStr (toString e))]) /\
    (truthy env = true ->
       env' = put_field env "ERROR_MSG" (VStr (toString e)) /\
       forall k, k <> "ERROR_MSG" -> get_field env' k = get_field env k).
Proof.
  intros Hfail Hinst Hfp Hp Henv Hacc.
  destruct (set_error_message_spec rt payload env e Hfp Hp Henv Hacc)
    as (rt' & Hset & Hfp' & _).
  exists rt', (put_field (or_else env (VObj [])) "ERROR_MSG" (VStr (toString e))).
  conjs.
  - rewrite (render_or_report_failed _ _ _ _ _ _ Hfail), Hinst. exact Hset.
  - unfold first_env. rewrite Hfp'. js_step. now apply get_put_same.
  - now apply get_put_same.
  - intros Hf. unfold or_else. now rewrite Hf.
  - intros Ht. unfold or_else. rewrite Ht. split; auto.
    intros k Hk. now apply get_put_other.
Qed.

End Renderer.

Section Versions.
Context `{Collaborators}.

Lemma is_zero_spec (version : value) : is_zero version = true <-> version = VNum 0.
Proof.
  destruct version; simpl; split; intros E; try discriminate; try reflexivity.
  - apply Z.eqb_eq in E. now subst.
  - inversion E. reflexivity.
Qed.

(** The marker test is a substring test. *)
Lemma mentions_version_0_spec (template : string) :
  mentions_version_0 template = true <->
  exists i, substring i (String.length "version: 0") template = "version: 0".
Proof.
  unfold mentions_version_0, indexOf.
  destruct (index 0 "version: 0" template) as [i|] eqn:E; split; intros Hm.
  - exists i. exact (index_correct1 _ _ _ _ E).
  - reflexivity.
  - discriminate.
  - destruct Hm as [i Hi]. exfalso.
    refine (index_correct3 0 i _ _ E _ (Nat.le_0_l i) Hi). discriminate.
Qed.

(** C5. Version detection in [renderTemplate].
    (1) The version is the [version] property of the parsed template.
    (2) When the parse fails and the text contains [version: 0], the version
        is 0 and the template is rendered as a version-0 template.
    (3) When the parse fails and the text does not contain it, the parse
        failure is the result.
    (4) Any version other than the number 0 ends in the error
        "Unrecognized .taskcluster.yml version"; the number 0 goes to
        [renderTemplateV0].
    The marker test is a plain substring test; a document that parses to
    [null] or [undefined] is treated like a failed parse, since reading its
    version throws inside the same [try]. *)
Theorem version_detection (project template : string) (vars : list (string * value)) :
  (forall data version,
     yaml_safeLoad template = Ok data -> get_field data "version" = Ok version ->
     template_version template = Ok version) /\
  (forall e,
     yaml_safeLoad template = Throw e -> mentions_version_0 template = true ->
     template_version template = Ok (VNum 0) /\
     renderTemplate project template vars = renderTemplateV0 project template vars) /\
  (forall e,
     yaml_safeLoad template = Throw e -> mentions_version_0 template = false ->
     renderTemplate project template vars = Throw e) /\
  (forall version,
     template_version template = Ok version -> version <> VNum 0 ->
     renderTemplate project template vars =
       Throw (Error "Unrecognized .taskcluster.yml version")) /\
  (template_version template = Ok (VNum 0) ->
     renderTemplate project template vars = renderTemplateV0 project template vars) /\
  (forall data e,
     yaml_safeLoad template = Ok data -> get_field data "version" = Throw e ->
     template_version template =
       if mentions_version_0 template then Ok (VNum 0) else Throw e) /\
  (mentions_version_0 template = true <->
     exists i, substring i (String.length "version: 0") template = "version: 0").
Proof.
  unfold renderTemplate, template_version. conjs.
  - intros data version Hload Hv. rewrite Hload. js_step. now rewrite Hv.
  - intros e Hload Hm. rewrite Hload. js_step. now rewrite Hm.
  - intros e Hload Hm. rewrite Hload. js_step. now rewrite Hm.
  - intros version Hv Hne. rewrite Hv. js_step.
    destruct (is_zero version) eqn:Ez; auto.
    apply is_zero_spec in Ez. contradiction.
  - intros Hv. rewrite Hv. reflexivity.
  - intros data e Hload Hv. rewrite Hload. js_step. now rewrite Hv.
  - apply mentions_version_0_spec.
Qed.

End Versions.

Section VersionZero.
Context `{Collaborators}.

(** The loop of [renderTemplateV0] over wrapped entries: each inner
    definition receives the scheduler identity and keeps the rest. *)
Lemma for_each_wrapped (schedulerId : string) (items : list value) :
  Forall (fun task => exists inner,
            get_field task "task" = Ok inner /\ accepts_properties inner = true) items ->
  exists items',
    for_each
      (fun task =>
         let* inner := get_field task "task" in
         let* inner' := set_field inner "schedulerId" (VStr schedulerId) in
         Ok (put_field task "task" inner')) items = Ok items' /\
    Forall2
      (fun task task' => exists inner inner',
         get_field task "task" = Ok inner /\
         get_field task' "task" = Ok inner' /\
         get_field inner' "schedulerId" = Ok (VStr schedulerId) /\
         (forall k, k <> "schedulerId" -> get_field inner' k = get_field inner k) /\
         (forall k, k <> "task" -> get_field task' k = get_field task k))
      items items'.
Proof.
  induction 1 as [|task items (inner & Hin & Hacc) _ (items' & Hrun & Hall)].
  - exists []. split; [reflexivity|constructor].
  - simpl. rewrite Hin. js_step.
    rewrite (set_field_total inner "schedulerId" _ Hacc). js_step.
    rewrite Hrun. js_step. eexists. split; [reflexivity|].
    constructor; auto.
    exists inner, (put_field inner "schedulerId" (VStr schedulerId)).
    pose proof (get_field_accepts _ _ _ Hin Hacc) as Htask.
    conjs; auto.
    + now apply get_put_same.
    + now apply get_put_same.
    + intros k Hk. now apply get_put_other.
    + intros k Hk. now apply get_put_other.
Qed.

(** The same loop over a list with an entry whose [task] is no object. *)
Lemma for_each_bare (schedulerId : string) (items : list value) :
  Exists (fun task => forall inner,
            get_field task "task" = Ok inner -> accepts_properties inner = false) items ->
  exists e,
    for_each
      (fun task =>
         let* inner := get_field task "task" in
         let* inner' := set_field inner "schedulerId" (VStr schedulerId) in
         Ok (put_field task "task" inner')) items = Throw e /\
    name e = "TypeError".
Proof.
  induction items as [|task items IH]; intros Hex; [inversion Hex|].
  simpl.
  destruct (get_field task "task") as [inner|e] eqn:Hin; js_step.
  2:{ exists e. split; auto. exact (get_field_TypeError _ _ _ Hin). }
  destruct (set_field inner "schedulerId" (VStr schedulerId)) as [inner'|e] eqn:Hset; js_step.
  2:{ exists e. split; auto. exact (set_field_TypeError _ _ _ _ Hset). }
  apply set_field_accepts in Hset as (Hacc & _ & _).
  inversion Hex as [? ? Hbad | ? ? Hlater]; subst.
  - specialize (Hbad inner Hin). congruence.
  - destruct (IH Hlater) as (e & Hrun & Hname). rewrite Hrun. js_step. now exists e.
Qed.

(** C6 (as amended).  A version-0 template is rendered by substituting the
    variables ([instantiate]) and writing the scheduler identity
    ["gecko-level-" + level] into [task.task] of every entry.  Entries in the
    wrapped form [{task: <definition>}] all receive it, and nothing else
    changes.  An entry in the bare form (no object under [task]) makes the
    version-0 rendering throw a [TypeError].  It is the loop of the submitter
    that takes either form: the inner definition of a wrapper, the entry
    itself when it has no [task]. *)
Theorem version0_rendering (project template : string) (vars : list (string * value))
    (rt : value) (items : list value) (ps : list (string * value)) :
  instantiate template vars = Ok rt ->
  get_field rt "tasks" = Ok (VArr items ps) ->
  let schedulerId := "gecko-level-" ++ to_string (prop_or_undefined "level" vars) in
  (Forall (fun task => exists inner,
             get_field task "task" = Ok inner /\ accepts_properties inner = true) items ->
   exists rt' items',
     renderTemplateV0 project template vars = Ok rt' /\
     get_field rt' "tasks" = Ok (VArr items' ps) /\
     (forall k, k <> "tasks" -> get_field rt' k = get_field rt k) /\
     Forall2
       (fun task task' => exists inner inner',
          get_field task "task" = Ok inner /\
          get_field task' "task" = Ok inner' /\
          get_field inner' "schedulerId" = Ok (VStr schedulerId) /\
          (forall k, k <> "schedulerId" -> get_field inner' k = get_field inner k) /\
          (forall k, k <> "task" -> get_field task' k = get_field task k))
       items items') /\
  (Exists (fun task => forall inner,
             get_field task "task" = Ok inner -> accepts_properties inner = false) items ->
   exists e, renderTemplateV0 project template vars = Throw e /\ name e = "TypeError") /\
  (forall task, get_field task "task" = Ok VUndefined -> task_definition task = Ok task) /\
  (forall task inner,
     get_field task "task" = Ok inner -> accepts_properties inner = true ->
     task_definition task = Ok inner).
Proof.
  intros Hinst Htasks schedulerId. unfold renderTemplateV0.
  rewrite Hinst. js_step. rewrite Htasks. js_step. unfold iterate. js_step.
  assert (Hrt : accepts_properties rt = true)
    by exact (get_field_accepts _ _ _ Htasks eq_refl).
  conjs.
  - intros Hwrapped.
    destruct (for_each_wrapped schedulerId items Hwrapped) as (items' & Hrun & Hall).
    fold schedulerId. rewrite Hrun. js_step.
    exists (put_field rt "tasks" (VArr items' ps)), items'. conjs; auto.
    + now apply get_put_same.
    + intros k Hk. now apply get_put_other.
  - intros Hbare.
    destruct (for_each_bare schedulerId items Hbare) as (e & Hrun & Hname).
    fold schedulerId. rewrite Hrun. js_step. now exists e.
  - intros task Htask. unfold task_definition. now rewrite Htask.
  - intros task inner Htask Hacc. unfold task_definition. rewrite Htask. js_step.
    now rewrite (accepts_truthy inner Hacc).
Qed.

End VersionZero.

(* ================================================================== *)
(** ** Properties of the fetcher and of the URL resolver *)
(* ================================================================== *)

Section Fetcher.
Context `{Collaborators}.

(** One turn of the function handed to [retry]. *)
Lemma fetch_attempt (u : string) (w : world) :
  (res <- http_get u GRAPH_REQ_TIMEOUT ;;
   match error res with
   | Some e => throw e
   | None => ret (text res)
   end)%job w =
  (snd (attempt u (net w)),
   {| drawn := drawn w; remote := remote w; created := created w;
      net := fst (attempt u (net w));
      wire := (wire w ++ [Request u GRAPH_REQ_TIMEOUT])%list;
      console := console w |}).
Proof.
  unfold bindM, http_get, attempt, throw, ret.
  destruct (request_get (net w) u GRAPH_REQ_TIMEOUT) as [n' [res|e]]; simpl; auto.
  destruct (error res); reflexivity.
Qed.

(** The run of [fetchGraph] when the next three attempts fail. *)
Lemma fetchGraph_exhausted (u : string) (w : world) (e1 e2 e3 : exn) :
  u <> "" ->
  failures (S GRAPH_RETIRES) u (net w) = Some [e1; e2; e3] ->
  exists n3,
    fetchGraph u w =
    (Throw (Error ("Could not fetch graph at " ++ u ++ LF ++ " " ++ stack e3)),
     {| drawn := drawn w; remote := remote w; created := created w; net := n3;
        wire :=
          (wire w ++
           [Request u 30000; Sleep 5000; Request u 30000; Sleep 5000; Request u 30000])%list;
        console := console w |}).
Proof.
  intros Hne Hfail.
  unfold fetchGraph, assert_url. simpl truthy.
  apply String.eqb_neq in Hne. rewrite Hne. simpl negb. cbv iota.
  unfold bindM at 1. unfold ret at 1. cbv iota beta.
  unfold try_catch, retry. simpl retires. simpl interval.
  unfold GRAPH_RETIRES in *. simpl in Hfail.
  unfold retry_from. rewrite fetch_attempt.
  destruct (attempt u (net w)) as [n1 [?|x1]]; [discriminate|]. cbn [fst snd].
  unfold sleep. cbn [fst snd net wire drawn remote created console].
  rewrite fetch_attempt. cbn [fst snd net wire drawn remote created console].
  destruct (attempt u n1) as [n2 [?|x2]]; [discriminate|]. cbn [fst snd].
  rewrite fetch_attempt. cbn [fst snd net wire drawn remote created console].
  destruct (attempt u n2) as [n3 [?|x3]]; [discriminate|]. cbn [fst snd].
  inversion Hfail; subst.
  unfold throw. exists n3. rewrite <- !app_assoc. reflexivity.
Qed.

(** C7. Exhausted retries.  For a (non-empty) URL whose next three attempts
    all fail, [fetchGraph] makes exactly three requests, each with the
    30000 ms timeout, pauses 5000 ms between one attempt and the next, makes
    no fourth request, and throws an [Error] whose message names the URL and
    carries the stack of the last failure.  (The retrying is done by the
    promise-retries package, modelled from the specification; the job hands
    it the budget under the key [retires].) *)
Theorem fetch_gives_up_after_three (u : string) (w : world) (e1 e2 e3 : exn) :
  u <> "" ->
  failures (S GRAPH_RETIRES) u (net w) = Some [e1; e2; e3] ->
  let out := fetchGraph u w in
  fst out = Throw (Error ("Could not fetch graph at " ++ u ++ LF ++ " " ++ stack e3)) /\
  wire (snd out) =
    (wire w ++
     [Request u 30000; Sleep 5000; Request u 30000; Sleep 5000; Request u 30000])%list /\
  created (snd out) = created w /\ drawn (snd out) = drawn w /\
  remote (snd out) = remote w.
Proof.
  intros Hne Hfail out.
  destruct (fetchGraph_exhausted u w e1 e2 e3 Hne Hfail) as (n3 & Hrun).
  subst out. rewrite Hrun. simpl. conjs; reflexivity.
Qed.

End Fetcher.

Section Resolver.
Context `{Collaborators}.

(** C9. The URL resolver.  For a URL that Node parses with a path [p],
    [parseUrl] returns [{ path, host }] where [path] is the resolved
    (normalized) path, the empty string standing for the root, and [host] is
    the scheme, ["//"] and the host with its port, in this order; the scheme
    is the [protocol] field of the parsed URL (Node's spelling of it:
    [https:]), and the literal [http] when the URL has none. *)
Theorem parseUrl_parts (u p : string) :
  path (URL_parse u) = VStr p ->
  exists parts,
    parseUrl u = Ok parts /\
    (Path_resolve p = "/" -> parts_path parts = "") /\
    (Path_resolve p <> "/" -> parts_path parts = Path_resolve p) /\
    (forall scheme h,
       protocol (URL_parse u) = VStr scheme -> scheme <> "" ->
       host (URL_parse u) = VStr h ->
       parts_host parts = scheme ++ "//" ++ h) /\
    (forall h,
       truthy (protocol (URL_parse u)) = false ->
       host (URL_parse u) = VStr h ->
       parts_host parts = "http" ++ "//" ++ h).
Proof.
  intros Hp. unfold parseUrl. rewrite Hp. simpl resolve_path. js_step.
  eexists. split; [reflexivity|]. simpl parts_path. simpl parts_host. conjs.
  - intros Hroot. rewrite Hroot. reflexivity.
  - intros Hne. apply String.eqb_neq in Hne. now rewrite Hne.
  - intros scheme h Hs Hne Hh. rewrite Hs, Hh. unfold or_else. simpl.
    apply String.eqb_neq in Hne. now rewrite Hne.
  - intros h Hf Hh. unfold or_else. rewrite Hf, Hh. reflexivity.
Qed.

End Resolver.

(* ================================================================== *)
(** ** Properties of the job *)
(* ================================================================== *)

Section JobFacts.
Context `{Collaborators}.




Lemma last_changeset_of (p : push) (earlier : list changeset) (c : changeset) :
  changesets p = (earlier ++ [c])%list -> last_changeset p = Ok c.
Proof. intros E. unfold last_changeset. now rewrite E, rev_unit. Qed.

(** The steps of [work] after the push and the repository URL have been
    read: one line on the console, the fetch, the submission. *)
Lemma work_steps (cfg : config) (job : job_data) (w : world)
    (p : push) (earlier : list changeset) (c : changeset) (parts : url_parts) :
  pushlog_getOne (url (repo job)) (pushref_id job) = Ok p ->
  changesets p = (earlier ++ [c])%list ->
  parseUrl (url (repo job)) = Ok parts ->
  let u :=
    projectConfig_tcYamlUrl (config_try cfg)
      {| var_alias := alias (repo job); var_revision := node c;
         var_path := parts_path parts; var_host := parts_host parts |} in
  let scopes :=
    (projectConfig_scopes (config_try cfg) (alias (repo job)) ++ [notify_scope p])%list in
  let vars :=
    update "source" (VStr u)
      [ ("owner", VStr (user p));
        ("revision", VStr (node c));
        ("project", VStr (alias (repo job)));
        ("level", projectConfig_level (config_try cfg) (alias (repo job)));
        ("revision_hash", revision_hash job);
        ("comment", or_else (parseCommitMessage (desc c)) (VStr " "));
        ("pushlog_id", VStr (to_string (push_id p)));
        ("url", VStr (url (repo job)));
        ("pushdate", date p) ] in
  work cfg job w =
  (console_log ("Fetching '.taskcluster.yml' url " ++ u ++ " for '" ++
                alias (repo job) ++ "' push id " ++ to_string (push_id p)) ;;;
   graphText <- fetchGraph u ;;
   scheduleTaskGroup
     {| credentials := config_credentials cfg; authorizedScopes := scopes |}
     (alias (repo job)) graphText vars scopes (errorTask (config_try cfg)))%job w.
Proof.
  intros Hp Hc Hurl u scopes vars. unfold work, bindM at 1 2 3, lift.
  rewrite Hp, (last_changeset_of p earlier c Hc), Hurl. reflexivity.
Qed.







End JobFacts.

(* ================================================================== *)
(** ** The properties at work on the concrete collaborators *)
(* ================================================================== *)

(** The graph of three tasks on a queue that accepts everything: three calls,
    one group. *)
Example three_tasks_one_group :
  fst Demo.three_run = Ok tt /\
  map (fun c => (taskId c, get_field (definition c) "taskGroupId",
                 get_field (definition c) "scopes"))
      (created (snd Demo.three_run)) =
  [ ("slug-0", Ok (VStr "slug-0"), Ok (VArr [VStr "scope:a"; VStr "scope:b"] []));
    ("slug-1", Ok (VStr "slug-0"), Ok (VArr [VStr "scope:a"] []));
    ("slug-2", Ok (VStr "slug-0"), Ok (VArr [VStr "scope:c"; VStr "scope:a"] [])) ].
Proof. split; vm_compute; reflexivity. Qed.

Lemma scopes_are_union_witness :
  exists us,
    get_field (definition Demo.first_call) "scopes" = Ok (VArr (map VStr us) []) /\
    us = distinct (["scope:a"; "scope:b"] ++ ["scope:a"]) /\
    NoDup us /\
    (forall s, In s us <-> In s ["scope:a"; "scope:b"] \/ In s ["scope:a"]).
Proof.
  apply (scopes_are_union Demo.client "try" Demo.t_three Demo.variables ["scope:a"]
           Demo.err_plain (Demo.world_with [] [])
           Demo.three_items (created (snd Demo.three_run)) 0
           Demo.first_item Demo.first_call
           (VArr [VStr "scope:a"; VStr "scope:b"] []) ["scope:a"; "scope:b"]).
  - vm_compute. reflexivity.
  - reflexivity.
  - reflexivity.
  - right. exists []. reflexivity.
  - reflexivity.
  - vm_compute. reflexivity.
Defined.

(** The same graph on a queue that rejects the second task: two calls, and
    the rejection reaches the caller. *)
Example second_submission_fails :
  fst Demo.failing_run = Throw Demo.rejected /\
  map (fun c => (taskId c, outcome c)) (created (snd Demo.failing_run)) =
  [ ("slug-0", None); ("slug-1", Some Demo.rejected) ].
Proof. split; vm_compute; reflexivity. Qed.

Lemma failure_stops_submission_witness :
  let out := Demo.failing_run in
  let calls := created (snd out) in
  fst out = Throw Demo.rejected /\
  List.length calls = 2 /\
  (forall j c', j < 1 -> nth_error calls j = Some c' -> outcome c' = None) /\
  remote (snd out) =
    replay (remote (Demo.world_with [None; Some Demo.rejected] [])) calls.
Proof.
  apply (failure_stops_submission Demo.client "try" Demo.t_three Demo.variables
           ["scope:a"] Demo.err_plain (Demo.world_with [None; Some Demo.rejected] [])
           (created (snd Demo.failing_run)) 1 Demo.second_call Demo.rejected).
  - reflexivity.
  - vm_compute. reflexivity.
  - reflexivity.
Defined.

(** The fallback on a usual error template: the diagnostic task is
    submitted, with the failure in its environment. *)
Example broken_template_is_reported :
  let out :=
    scheduleTaskGroup Demo.client "try" Demo.t_broken Demo.variables ["scope:a"]
      Demo.err_plain (Demo.world_with [] []) in
  fst out = Ok tt /\
  map (fun c => definition c) (created (snd out)) =
  [ VObj [ ("payload",
            VObj [("env",
                   VObj [("ERROR_MSG",
                          VStr "YAMLException: unexpected end of the stream")])]);
           ("scopes", VArr [VStr "scope:a"] []);
           ("taskGroupId", VStr "slug-0") ] ].
Proof. split; vm_compute; reflexivity. Qed.



Lemma error_message_always_set_witness :
  exists rt' env',
    fst (render_or_report "try" Demo.t_broken Demo.variables Demo.err_with_message
           (Demo.world_with [] [])) = Ok rt' /\
    first_env rt' = Ok env' /\
    get_field env' "ERROR_MSG" = Ok (VStr (toString Demo.yaml_error)) /\
    (truthy (VObj [("ERROR_MSG", VStr "old"); ("KEEP", VStr "me")]) = false ->
     env' = VObj [("ERROR_MSG", VStr (toString Demo.yaml_error))]) /\
    (truthy (VObj [("ERROR_MSG", VStr "old"); ("KEEP", VStr "me")]) = true ->
     env' = put_field (VObj [("ERROR_MSG", VStr "old"); ("KEEP", VStr "me")])
              "ERROR_MSG" (VStr (toString Demo.yaml_error)) /\
     forall k, k <> "ERROR_MSG" ->
       get_field env' k =
       get_field (VObj [("ERROR_MSG", VStr "old"); ("KEEP", VStr "me")]) k).
Proof.
  apply (error_message_always_set "try" Demo.t_broken Demo.variables
           Demo.err_with_message (Demo.world_with [] []) Demo.yaml_error
           Demo.doc_err_with_message
           (VObj [("env", VObj [("ERROR_MSG", VStr "old"); ("KEEP", VStr "me")])])
           (VObj [("ERROR_MSG", VStr "old"); ("KEEP", VStr "me")])); reflexivity.
Defined.

(** C8 as stated does not hold: the rendered error task came with
    [ERROR_MSG: old], and the fallback replaced it. *)
Lemma existing_error_message_is_replaced :
  first_error_message Demo.doc_err_with_message = Ok (VStr "old") /\
  (let* rt' :=
     fst (render_or_report "try" Demo.t_broken Demo.variables Demo.err_with_message
            (Demo.world_with [] [])) in
   first_env rt') =
  Ok (VObj [ ("ERROR_MSG", VStr "YAMLException: unexpected end of the stream");
             ("KEEP", VStr "me") ]).
Proof. split; vm_compute; reflexivity. Qed.

Lemma version_detection_witness :
  renderTemplate "try" Demo.t_v1 Demo.variables =
    Throw (Error "Unrecognized .taskcluster.yml version") /\
  renderTemplate "try" Demo.t_broken Demo.variables = Throw Demo.yaml_error /\
  renderTemplate "try" Demo.t_legacy Demo.variables =
    renderTemplateV0 "try" Demo.t_legacy Demo.variables /\
  renderTemplate "try" Demo.t_wrapped Demo.variables =
    renderTemplateV0 "try" Demo.t_wrapped Demo.variables.
Proof.
  split; [|split; [|split]].
  - destruct (version_detection "try" Demo.t_v1 Demo.variables)
      as (Hparsed & _ & _ & Hother & _).
    apply (Hother (VNum 1)); [|discriminate].
    apply (Hparsed Demo.doc_v1); reflexivity.
  - destruct (version_detection "try" Demo.t_broken Demo.variables)
      as (_ & _ & Hfail & _).
    apply (Hfail Demo.yaml_error); reflexivity.
  - destruct (version_detection "try" Demo.t_legacy Demo.variables)
      as (_ & Hlegacy & _).
    apply (Hlegacy Demo.yaml_error); reflexivity.
  - destruct (version_detection "try" Demo.t_wrapped Demo.variables)
      as (Hparsed & _ & _ & _ & Hzero & _).
    apply Hzero. apply (Hparsed Demo.doc_wrapped); reflexivity.
Defined.

(** The version-0 example of the specification. *)
Example wrapped_task_gets_scheduler :
  renderTemplate "try" Demo.t_wrapped Demo.variables =
  Ok (VObj [ ("version", VNum 0);
             ("tasks",
              VArr [VObj [("task", VObj [("payload", VObj []);
                                         ("schedulerId", VStr "gecko-level-3")])]] []) ]).
Proof. vm_compute. reflexivity. Qed.

Lemma version0_rendering_witness :
  exists rt' items',
    renderTemplateV0 "try" Demo.t_wrapped Demo.variables = Ok rt' /\
    get_field rt' "tasks" = Ok (VArr items' []) /\
    (forall k, k <> "tasks" -> get_field rt' k = get_field Demo.doc_wrapped k) /\
    Forall2
      (fun task task' => exists inner inner',
         get_field task "task" = Ok inner /\
         get_field task' "task" = Ok inner' /\
         get_field inner' "schedulerId" = Ok (VStr "gecko-level-3") /\
         (forall k, k <> "schedulerId" -> get_field inner' k = get_field inner k) /\
         (forall k, k <> "task" -> get_field task' k = get_field task k))
      [Demo.wrapped_task] items'.
Proof.
  apply (version0_rendering "try" Demo.t_wrapped Demo.variables Demo.doc_wrapped
           [Demo.wrapped_task] []); [reflexivity|reflexivity|].
  constructor; [|constructor].
  exists (VObj [("payload", VObj [])]). split; reflexivity.
Defined.

(** C6 as stated does not hold: a version-0 template whose entry is a bare
    task definition parses, is of version 0, and is refused by the version-0
    rendering. *)
Lemma bare_task_is_refused :
  yaml_safeLoad Demo.t_bare = Ok Demo.doc_bare /\
  get_field Demo.doc_bare "version" = Ok (VNum 0) /\
  instantiate Demo.t_bare Demo.variables = Ok Demo.doc_bare /\
  renderTemplate "try" Demo.t_bare Demo.variables =
    Throw (TypeError "Cannot set property 'schedulerId' of undefined").
Proof. repeat split; vm_compute; reflexivity. Qed.

Lemma fetch_gives_up_after_three_witness :
  let out := fetchGraph Demo.graph_url (Demo.world_with [] []) in
  fst out =
    Throw (Error ("Could not fetch graph at " ++ Demo.graph_url ++ LF ++ " " ++
                  stack Demo.refused)) /\
  wire (snd out) =
    ([] ++
     [Request Demo.graph_url 30000; Sleep 5000; Request Demo.graph_url 30000;
      Sleep 5000; Request Demo.graph_url 30000])%list /\
  created (snd out) = [] /\ drawn (snd out) = 0 /\
  remote (snd out) = remote (Demo.world_with [] []).
Proof.
  apply (fetch_gives_up_after_three Demo.graph_url (Demo.world_with [] [])
           Demo.refused Demo.refused Demo.refused).
  - discriminate.
  - reflexivity.
Defined.

(** A server that fails twice and then answers: the third attempt's body is
    the result. *)
Example fetch_succeeds_on_third_attempt :
  let busy := Ok {| error := Some Demo.refused; text := "" |} in
  let out :=
    fetchGraph Demo.graph_url
      (Demo.world_with [] [busy; Throw Demo.refused;
                           Ok {| error := None; text := Demo.t_wrapped |}]) in
  fst out = Ok Demo.t_wrapped /\
  wire (snd out) =
    [Request Demo.graph_url 30000; Sleep 5000; Request Demo.graph_url 30000;
     Sleep 5000; Request Demo.graph_url 30000].
Proof. split; vm_compute; reflexivity. Qed.

(** The example of the source's comment:
    [parseUrl('https://hg.mozilla.org/try/')]. *)
Lemma parseUrl_parts_witness :
  exists parts,
    parseUrl "https://hg.mozilla.org/try/" = Ok parts /\
    (Path_resolve "/try/" = "/" -> parts_path parts = "") /\
    (Path_resolve "/try/" <> "/" -> parts_path parts = "/try") /\
    (forall scheme h,
       protocol (URL_parse "https://hg.mozilla.org/try/") = VStr scheme ->
       scheme <> "" ->
       host (URL_parse "https://hg.mozilla.org/try/") = VStr h ->
       parts_host parts = scheme ++ "//" ++ h) /\
    (forall h,
       truthy (protocol (URL_parse "https://hg.mozilla.org/try/")) = false ->
       host (URL_parse "https://hg.mozilla.org/try/") = VStr h ->
       parts_host parts = "http" ++ "//" ++ h).
Proof.
  exact (parseUrl_parts "https://hg.mozilla.org/try/" "/try/" eq_refl).
Defined.

Example parseUrl_of_the_try_repository :
  parseUrl "https://hg.mozilla.org/try/" =
  Ok {| parts_path := "/try"; parts_host := "https://hg.mozilla.org" |}.
Proof. vm_compute. reflexivity. Qed.

(** A URL without a scheme: the literal [http] stands in, without a colon. *)
Example parseUrl_without_scheme :
  parseUrl "//user@hg.mozilla.org/" =
  Ok {| parts_path := ""; parts_host := "http//hg.mozilla.org" |}.
Proof. vm_compute. reflexivity. Qed.

Example parseCommitMessage_examples :
  parseCommitMessage "Bug 1 - no flag here" = VNull /\
  parseCommitMessage ("Bug 1; try: -b do -p all" ++ LF ++ "more") =
    VStr "try: -b do -p all" /\
  parseCommitMessage "try: -b o" = VStr "try: -b o".
Proof. repeat split; vm_compute; reflexivity. Qed.

(** A whole job: the template is fetched at the first attempt and its three
    tasks are submitted through a client authorized for the notify scope. *)
Example job_submits_three_tasks :
  let out :=
    work Demo.cfg Demo.job
      (Demo.world_with [] [Ok {| error := None; text := Demo.t_three |}]) in
  fst out = Ok tt /\
  wire (snd out) = [Request Demo.graph_url 30000] /\
  map (fun c => (authorizedScopes (via c), get_field (definition c) "scopes"))
      (created (snd out)) =
  [ (["scope:a"; "queue:route:notify.email.dev@example.com.*"],
     Ok (VArr [VStr "scope:a"; VStr "scope:b";
               VStr "queue:route:notify.email.dev@example.com.*"] []));
    (["scope:a"; "queue:route:notify.email.dev@example.com.*"],
     Ok (VArr [VStr "scope:a";
               VStr "queue:route:notify.email.dev@example.com.*"] []));
    (["scope:a"; "queue:route:notify.email.dev@example.com.*"],
     Ok (VArr [VStr "scope:c"; VStr "scope:a";
               VStr "queue:route:notify.email.dev@example.com.*"] [])) ].
Proof. repeat split; vm_compute; reflexivity. Qed.

(* ================================================================== *)
(** ** Further properties: the commit message parser *)
(* ================================================================== *)

Section StringFacts.

Lemma length_append (a b : string) :
  String.length (a ++ b) = String.length a + String.length b.
Proof. induction a as [|c a IH]; simpl; auto. Qed.

Lemma append_assoc (a b c : string) : (a ++ b) ++ c = a ++ b ++ c.
Proof. induction a as [|x a IH]; simpl; auto. now rewrite IH. Qed.

Lemma append_empty_r (a : string) : a ++ "" = a.
Proof. induction a as [|x a IH]; simpl; auto. now rewrite IH. Qed.

Lemma prefix_split (s1 s2 : string) :
  prefix s1 s2 = true -> exists b, s2 = s1 ++ b.
Proof.
  revert s2. induction s1 as [|c s1 IH]; intros s2 Hp.
  - exists s2. reflexivity.
  - destruct s2 as [|d s2]; simpl in Hp; [discriminate|].
    destruct (ascii_dec c d) as [->|]; [|discriminate].
    destruct (IH s2 Hp) as [b ->]. now exists b.
Qed.

(** Where [index] finds a string, the text splits around it. *)
Lemma index_split (s1 : string) :
  forall (s2 : string) (n m : nat),
  index n s1 s2 = Some m ->
  n <= m /\ exists a b, s2 = a ++ s1 ++ b /\ String.length a = m.
Proof.
  induction s2 as [|c s2 IH]; intros n m Hi.
  - destruct n; simpl in Hi; [|discriminate].
    destruct s1; [|discriminate]. inversion Hi; subst.
    split; auto. exists "", "". split; reflexivity.
  - destruct n as [|n].
    + cbn [index] in Hi.
      destruct (prefix s1 (String c s2)) eqn:Hp.
      * inversion Hi; subst. split; auto.
        destruct (prefix_split _ _ Hp) as [b Hb]. exists "", b. split; auto.
      * destruct (index 0 s1 s2) as [k|] eqn:Hk; [|discriminate].
        inversion Hi; subst. split; [lia|].
        destruct (IH 0 k Hk) as (_ & a & b & -> & Hl).
        exists (String c a), b. simpl. split; auto.
    + cbn [index] in Hi.
      destruct (index n s1 s2) as [k|] eqn:Hk; [|discriminate].
      inversion Hi; subst.
      destruct (IH n k Hk) as (Hle & a & b & -> & Hl).
      split; [lia|]. exists (String c a), b. simpl. split; auto.
Qed.

Lemma substring_skip (a s : string) (k : nat) :
  substring (String.length a) k (a ++ s) = substring 0 k s.
Proof. induction a as [|c a IH]; simpl; auto. Qed.

Lemma substring_head (r b : string) : substring 0 (String.length r) (r ++ b) = r.
Proof.
  induction r as [|c r IH]; simpl.
  - now destruct b.
  - now rewrite IH.
Qed.

(** Two splits of one text, the shorter left part first. *)
Lemma append_overlap (a : string) :
  forall (a' t t' : string),
  a ++ t = a' ++ t' -> String.length a <= String.length a' ->
  exists r, a' = a ++ r /\ t = r ++ t'.
Proof.
  induction a as [|c a IH]; intros a' t t' E Hl.
  - exists a'. simpl in *. auto.
  - destruct a' as [|c' a']; simpl in Hl; [lia|].
    simpl in E. inversion E; subst.
    destruct (IH a' t t' H1 ltac:(lia)) as (r & -> & ->).
    exists r. auto.
Qed.

End StringFacts.

Section CommitMessage.

Lemma substring_one (c : ascii) (y : string) :
  substring 0 1 (String c y) = String c EmptyString.
Proof. simpl. now destruct y. Qed.

(** A line feed inside a text is found there by [substring]. *)
Lemma line_feed_at (a y : string) :
  substring (String.length a) (String.length LF) (a ++ LF ++ y) = LF.
Proof. rewrite substring_skip. apply substring_one. Qed.

(** X1. Without the try flag there is no directive: [parseCommitMessage]
    returns [null] exactly when ["try:"] occurs nowhere in the message. *)
Theorem parseCommitMessage_without_flag (message : string) :
  parseCommitMessage message = VNull <->
  forall p, substring p (String.length TRY_PREFIX) message <> TRY_PREFIX.
Proof.
  unfold parseCommitMessage, indexOf.
  destruct (index 0 TRY_PREFIX message) as [i|] eqn:E; split; intros Hm.
  - discriminate.
  - exfalso. exact (Hm i (index_correct1 _ _ _ _ E)).
  - intros p. apply (index_correct3 0 p _ _ E); [discriminate|lia].
  - reflexivity.
Qed.

(** The directive, located in the message. *)
Lemma directive_split (message r : string) :
  parseCommitMessage message = VStr r ->
  exists before rest after,
    message = before ++ r ++ after /\
    r = TRY_PREFIX ++ rest /\
    (forall p, p < String.length before ->
       substring p (String.length TRY_PREFIX) message <> TRY_PREFIX) /\
    (forall x y, r <> x ++ LF ++ y) /\
    (after = "" \/ exists after', after = LF ++ after').
Proof.
  unfold parseCommitMessage, indexOf, slice.
  destruct (index 0 TRY_PREFIX message) as [i|] eqn:Ei; [|discriminate].
  destruct (index_split _ _ _ _ Ei) as (_ & a & b & Hm & Ha).
  pose proof (index_correct2 _ _ _ _ Ei) as Hfirst.
  destruct (index i LF message) as [e|] eqn:Ee; intros Hr; inversion Hr; clear Hr.
  - destruct (index_split _ _ _ _ Ee) as (Hle & a' & b' & Hm' & Ha').
    assert (Hsplit : a ++ (TRY_PREFIX ++ b) = a' ++ (LF ++ b')) by congruence.
    destruct (append_overlap a a' _ _ Hsplit ltac:(lia)) as (r0 & Hr0 & Ht).
    assert (Hlen : e - i = String.length r0).
    { subst a'. rewrite length_append in Ha'. lia. }
    assert (Hsub : substring i (e - i) message = r0).
    { rewrite Hlen, Hm, Ht, <- Ha. rewrite substring_skip. apply substring_head. }
    rewrite Hsub.
    assert (Hrest : exists rest, r0 = TRY_PREFIX ++ rest).
    { unfold TRY_PREFIX, LF in Ht. simpl in Ht.
      destruct r0 as [|c1 [|c2 [|c3 [|c4 r0]]]]; simpl in Ht; inversion Ht.
      now exists r0. }
    destruct Hrest as [rest Hrest].
    exists a, rest, (LF ++ b'). conjs; auto.
    + rewrite Hm. now rewrite Ht.
    + intros p Hp. apply Hfirst; lia.
    + intros x y Hxy.
      apply (index_correct2 _ _ _ _ Ee (String.length (a ++ x))).
      * rewrite length_append. lia.
      * pose proof (f_equal String.length Hxy) as Hl.
        rewrite !length_append in Hl. simpl in Hl.
        rewrite length_append. lia.
      * rewrite Hm, Ht, Hxy, !append_assoc, <- (append_assoc a x).
        apply line_feed_at.
    + right. now exists b'.
  - assert (Hsub : substring i (String.length message - i) message = TRY_PREFIX ++ b).
    { rewrite Hm at 1 2. rewrite length_append, <- Ha.
      replace (String.length a + String.length (TRY_PREFIX ++ b) - String.length a)
        with (String.length (TRY_PREFIX ++ b)) by lia.
      rewrite substring_skip.
      rewrite <- (append_empty_r (TRY_PREFIX ++ b)) at 2. apply substring_head. }
    rewrite Hsub.
    exists a, b, "". conjs; auto.
    + rewrite Hm. now rewrite append_empty_r.
    + intros p Hp. apply Hfirst; lia.
    + intros x y Hxy.
      apply (index_correct3 _ (String.length (a ++ x)) _ _ Ee).
      * discriminate.
      * rewrite length_append. lia.
      * rewrite Hm, Hxy, ?append_assoc, <- (append_assoc a x).
        apply line_feed_at.
Qed.

(** X2. With the try flag, the directive is the text from the first ["try:"]
    to the end of its line: the message splits into what precedes the first
    occurrence of the flag, the directive, and a remainder that is empty or
    starts with the line feed; the directive starts with ["try:"] and holds no
    line feed. *)
Theorem parseCommitMessage_directive (message r : string) :
  parseCommitMessage message = VStr r ->
  exists before rest after,
    message = before ++ r ++ after /\
    r = TRY_PREFIX ++ rest /\
    (forall p, p < String.length before ->
       substring p (String.length TRY_PREFIX) message <> TRY_PREFIX) /\
    (forall x y, r <> x ++ LF ++ y) /\
    (after = "" \/ exists after', after = LF ++ after').
Proof. exact (directive_split message r). Qed.

(** The [comment] variable of a job, [parseCommitMessage(desc) || ' ']: a
    string, and never the empty one. *)
Lemma comment_is_not_empty (description : string) :
  exists s,
    or_else (parseCommitMessage description) (VStr " ") = VStr s /\ s <> "".
Proof.
  destruct (parseCommitMessage description) as [| | | |r| |] eqn:E;
    try (unfold parseCommitMessage in E;
         destruct (indexOf TRY_PREFIX 0 description); discriminate).
  - exists " ". split; [reflexivity|discriminate].
  - destruct (directive_split _ _ E) as (_ & rest & _ & _ & -> & _).
    exists (TRY_PREFIX ++ rest). split; [reflexivity|discriminate].
Qed.

End CommitMessage.

(* ================================================================== *)
(** ** Further properties: the submitter *)
(* ================================================================== *)

Section SubmitterExtras.
Context `{Collaborators}.

Lemma prepared_TypeError (scopes : list string) (g task : value) (e : exn) :
  prepared scopes g task = Throw e -> name e = "TypeError".
Proof.
  unfold prepared, task_definition.
  destruct (get_field task "task") as [inner|e0] eqn:E0; js_step.
  2:{ intros E; inversion E; subst. exact (get_field_TypeError _ _ _ E0). }
  destruct (get_field _ "scopes") as [declared|e1] eqn:E1; js_step.
  2:{ intros E; inversion E; subst. exact (get_field_TypeError _ _ _ E1). }
  destruct (concat _ scopes) as [joined|e2] eqn:E2; js_step.
  2:{ intros E; inversion E; subst. unfold concat in E2.
      destruct (or_else declared (VArr [] [])); inversion E2; reflexivity. }
  assert (Hit : exists l, iterate joined = Ok l).
  { unfold concat in E2.
    destruct (or_else declared (VArr [] [])); inversion E2; simpl; eauto. }
  destruct Hit as [l ->]. js_step.
  destruct (set_field _ "scopes" _) as [d1|e3] eqn:E3; js_step.
  2:{ intros E; inversion E; subst. exact (set_field_TypeError _ _ _ _ E3). }
  intros E. exact (set_field_TypeError _ _ _ _ E).
Qed.

Lemma map_by_position {A B} (f : A -> B) (g : nat -> B) (l : list A) :
  forall d,
  (forall i a, nth_error l i = Some a -> f a = g (d + i)) ->
  map f l = map g (seq d (List.length l)).
Proof.
  induction l as [|a l IH]; intros d Hpos; simpl; auto.
  f_equal.
  - rewrite (Hpos 0 a eq_refl). f_equal. lia.
  - apply IH. intros i b Hi. rewrite (Hpos (S i) b Hi). f_equal. lia.
Qed.

(** X5. Task identifiers.  The calls of a run are made under the identifiers
    slugid hands out during that run, one fresh identifier per task, in the
    order of the tasks; all of them go through the client given. *)
Theorem task_ids_in_order (client : queue) (project template : string)
    (vars : list (string * value)) (scopes : list string) (errT : string) (w : world)
    (calls : list call) :
  let out := scheduleTaskGroup client project template vars scopes errT w in
  created (snd out) = (created w ++ calls)%list ->
  map taskId calls = map slugid_nice (seq (drawn w) (List.length calls)) /\
  Forall (fun c => via c = client) calls.
Proof.
  intros out Hcreated.
  destruct (scheduleTaskGroup_calls client project template vars scopes errT w)
    as (calls' & Hc & _ & _ & _ & Hpos & _ & _).
  fold out in Hc. rewrite Hcreated in Hc. apply app_inv_head in Hc. subst calls'.
  split.
  - apply map_by_position. intros i c Hi. now destruct (Hpos i c Hi) as (_ & Hid & _).
  - apply Forall_forall. intros c Hin. apply In_nth_error in Hin as [i Hi].
    now destruct (Hpos i c Hi) as (Hvia & _).
Qed.


(** X8. A well-formed graph on a queue that accepts every call is submitted
    whole: the run ends normally after exactly one call per task. *)
Theorem well_formed_graph_is_submitted (client : queue) (project template : string)
    (vars : list (string * value)) (scopes : list string) (errT : string) (w : world)
    (items : list value) :
  (forall service id def,
     snd (queue_createTask (credentials client) (authorizedScopes client)
            service id def) = None) ->
  rendered_items project template vars errT w = Ok items ->
  Forall well_formed_task items ->
  let out := scheduleTaskGroup client project template vars scopes errT w in
  fst out = Ok tt /\
  exists calls, created (snd out) = (created w ++ calls)%list /\
                List.length calls = List.length items.
Proof.
  intros Haccept Hitems Hwf out.
  destruct (scheduleTaskGroup_run client project template vars scopes errT w items Hitems)
    as (w1 & (_ & _ & Hc) & _ & _ & Hrun).
  subst out. rewrite Hrun, <- Hc.
  exact (schedule_tasks_accepting client project vars scopes Haccept items VUndefined w1
           Hwf []).
Qed.

(** X9. An entry that cannot be prepared (a [null] entry, a definition that
    is no object, scopes that are neither a list nor a string) stops the run
    with a [TypeError] before any call is made for it: the tasks before it
    stay submitted, the tasks after it are never looked at. *)
Theorem malformed_task_stops_run (client : queue) (project template : string)
    (vars : list (string * value)) (scopes : list string) (errT : string) (w : world)
    (pre rest : list value) (bad : value) (e : exn) :
  (forall service id def,
     snd (queue_createTask (credentials client) (authorizedScopes client)
            service id def) = None) ->
  rendered_items project template vars errT w = Ok (pre ++ bad :: rest)%list ->
  Forall well_formed_task pre ->
  prepared scopes VUndefined bad = Throw e ->
  let out := scheduleTaskGroup client project template vars scopes errT w in
  fst out = Throw e /\ name e = "TypeError" /\
  exists calls, created (snd out) = (created w ++ calls)%list /\
                List.length calls = List.length pre.
Proof.
  intros Haccept Hitems Hwf Hbad out.
  destruct (scheduleTaskGroup_run client project template vars scopes errT w _ Hitems)
    as (w1 & (_ & _ & Hc) & _ & _ & Hrun).
  subst out. rewrite Hrun, <- Hc.
  destruct (schedule_tasks_accepting client project vars scopes Haccept pre VUndefined w1
              Hwf (bad :: rest) e Hbad) as (Hres & Hcalls).
  conjs; auto. exact (prepared_TypeError _ _ _ _ Hbad).
Qed.

End SubmitterExtras.

(* ================================================================== *)
(** ** Further properties: the renderer *)
(* ================================================================== *)

Section RendererExtras.
Context `{Collaborators}.

Lemma get_field_defined (v : value) (k : string) (x : value) :
  get_field v k = Ok x -> x <> VUndefined -> accepts_properties v = true.
Proof.
  destruct v; simpl; intros E Hx; inversion E; subst; auto; contradiction.
Qed.

(** Where the loop of [renderTemplateV0] ends normally, every entry was in the
    wrapped form and now carries the scheduler identity. *)
Lemma for_each_stamps (schedulerId : string) (items : list value) :
  forall items',
  for_each
    (fun task =>
       let* inner := get_field task "task" in
       let* inner' := set_field inner "schedulerId" (VStr schedulerId) in
       Ok (put_field task "task" inner')) items = Ok items' ->
  List.length items' = List.length items /\
  Forall (fun task => exists inner,
            get_field task "task" = Ok inner /\ accepts_properties inner = true /\
            get_field inner "schedulerId" = Ok (VStr schedulerId)) items'.
Proof.
  induction items as [|task items IH]; intros items' Hrun; simpl in Hrun.
  - inversion Hrun. split; [reflexivity|constructor].
  - destruct (get_field task "task") as [inner|] eqn:Hin; [|discriminate]. js_step in Hrun.
    destruct (set_field inner "schedulerId" _) as [inner'|] eqn:Hset; [|discriminate].
    js_step in Hrun.
    destruct (for_each _ items) as [rest|] eqn:Hrest; [|discriminate].
    js_step in Hrun. inversion Hrun; subst items'.
    destruct (IH rest eq_refl) as (Hlen & Hall).
    apply set_field_accepts in Hset as (Hacc & Hacc' & ->).
    pose proof (get_field_accepts _ _ _ Hin Hacc) as Htask.
    split; [simpl; now rewrite Hlen|].
    constructor; auto.
    exists (put_field inner "schedulerId" (VStr schedulerId)). conjs; auto.
    + now apply get_put_same.
    + now apply get_put_same.
Qed.

(** The tasks of a template that [renderTemplate] returns. *)
Lemma renderTemplate_stamps (project template : string)
    (vars : list (string * value)) (rt : value) :
  renderTemplate project template vars = Ok rt ->
  exists items,
    graph_tasks rt = Ok items /\
    Forall (fun task => exists inner,
              get_field task "task" = Ok inner /\ accepts_properties inner = true /\
              get_field inner "schedulerId" =
                Ok (VStr ("gecko-level-" ++ to_string (prop_or_undefined "level" vars))))
           items.
Proof.
  unfold renderTemplate.
  destruct (template_version template) as [version|]; js_step; [|discriminate].
  destruct (is_zero version); [|discriminate].
  unfold renderTemplateV0.
  destruct (instantiate template vars) as [rt0|]; js_step; [|discriminate].
  destruct (get_field rt0 "tasks") as [tasks|] eqn:Htasks; js_step; [|discriminate].
  destruct (iterate tasks) as [items|] eqn:Hit; js_step; [|discriminate].
  destruct (for_each _ items) as [items'|] eqn:Hrun; js_step; [|discriminate].
  intros E. inversion E; subst rt. clear E.
  destruct (for_each_stamps _ items items' Hrun) as (Hlen & Hall).
  assert (Hrt0 : accepts_properties rt0 = true).
  { apply (get_field_defined _ _ _ Htasks). intros ->. discriminate. }
  unfold graph_tasks. rewrite (get_put_same rt0 "tasks" _ Hrt0). js_step.
  destruct tasks; try discriminate; simpl in Hit; inversion Hit; subst items.
  - destruct s; simpl in *.
    + destruct items'; [|discriminate]. exists []. split; [reflexivity|constructor].
    + discriminate.
  - exists items'. split; [reflexivity|assumption].
Qed.

(** X10. What a successful rendering guarantees.  Whenever [renderTemplate]
    returns a template, its tasks can be iterated, every entry is in the
    wrapped form, and every [task.task] carries
    ["gecko-level-" + templateVariables.level] as [schedulerId]. *)
Theorem rendered_tasks_carry_scheduler (project template : string)
    (vars : list (string * value)) (rt : value) :
  renderTemplate project template vars = Ok rt ->
  exists items,
    graph_tasks rt = Ok items /\
    Forall (fun task => exists inner,
              get_field task "task" = Ok inner /\ accepts_properties inner = true /\
              get_field inner "schedulerId" =
                Ok (VStr ("gecko-level-" ++ to_string (prop_or_undefined "level" vars))))
           items.
Proof. exact (renderTemplate_stamps project template vars rt). Qed.

(** X11. Rendering and submitting compose: when the project's template
    renders, every [createTask] call of the run carries the scheduler identity
    of the project's level, since the submitter leaves that property alone. *)
Theorem submitted_tasks_carry_scheduler (client : queue) (project template : string)
    (vars : list (string * value)) (scopes : list string) (errT : string) (w : world)
    (rt : value) (calls : list call) :
  renderTemplate project template vars = Ok rt ->
  let out := scheduleTaskGroup client project template vars scopes errT w in
  created (snd out) = (created w ++ calls)%list ->
  Forall (fun c =>
            get_field (definition c) "schedulerId" =
              Ok (VStr ("gecko-level-" ++ to_string (prop_or_undefined "level" vars))))
         calls.
Proof.
  intros Hrender out Hcreated.
  destruct (renderTemplate_stamps project template vars rt Hrender)
    as (items & Hitems & Hall).
  assert (Hrendered : rendered_items project template vars errT w = Ok items).
  { unfold rendered_items, render_or_report, try_catch, lift.
    rewrite Hrender. exact Hitems. }
  destruct (scheduleTaskGroup_calls client project template vars scopes errT w)
    as (calls' & Hc & _ & _ & _ & Hpos & _ & _).
  fold out in Hc. rewrite Hcreated in Hc. apply app_inv_head in Hc. subst calls'.
  apply Forall_forall. intros c Hin. apply In_nth_error in Hin as [i Hi].
  destruct (Hpos i c Hi) as (_ & _ & items0 & task & g' & Hi0 & Ht & Hp & _).
  rewrite Hrendered in Hi0. inversion Hi0; subst items0.
  apply nth_error_In in Ht.
  destruct (proj1 (Forall_forall _ _) Hall task Ht) as (inner & Hin & Hacc & Hsid).
  destruct (prepared_frame scopes g' task (definition c) "schedulerId" Hp)
    as (d & Htd & _ & Hget); try discriminate.
  unfold task_definition in Htd. rewrite Hin in Htd. js_step in Htd.
  rewrite (accepts_truthy _ Hacc) in Htd. inversion Htd; subst d.
  now rewrite Hget.
Qed.

(** X12. A fallback that fails.  When rendering fails with [e] and the error
    template cannot be rendered or completed either, [scheduleTaskGroup]
    throws the fallback's own failure; the original failure [e] survives in
    the console only, no identifier is drawn and no task is submitted. *)
Theorem failed_fallback_submits_nothing (client : queue) (project template : string)
    (vars : list (string * value)) (scopes : list string) (errT : string) (w : world)
    (e e' : exn) :
  renderTemplate project template vars = Throw e ->
  (let* rt := instantiate errT vars in set_error_message rt e) = Throw e' ->
  let out := scheduleTaskGroup client project template vars scopes errT w in
  fst out = Throw e' /\
  created (snd out) = created w /\ drawn (snd out) = drawn w /\
  remote (snd out) = remote w /\
  console (snd out) =
    (console w ++ [("Error interpreting .taskcluster.yml: " ++ message e)%string])%list.
Proof.
  intros Hrender Hfallback out. subst out.
  unfold scheduleTaskGroup, render_or_report, try_catch, lift, bindM, console_log.
  rewrite Hrender. js_step.
  destruct (instantiate errT vars) as [rt|e0]; js_step in Hfallback; js_step.
  - rewrite Hfallback. js_step. conjs; reflexivity.
  - inversion Hfallback; subst. conjs; reflexivity.
Qed.

End RendererExtras.

(* ================================================================== *)
(** ** Further properties: the fetcher, the resolver and the job *)
(* ================================================================== *)

(** The network after [k] attempts on a URL. *)
Fixpoint net_after `{Collaborators} (k : nat) (u : string) (n : Net) : Net :=
  match k with
  | O => n
  | S k' => net_after k' u (fst (attempt u n))
  end.

(** The traffic of [k] failed attempts followed by one more attempt. *)
Fixpoint traffic (k : nat) (u : string) : list net_event :=
  match k with
  | O => [Request u GRAPH_REQ_TIMEOUT]
  | S k' => Request u GRAPH_REQ_TIMEOUT :: Sleep GRAPH_INTERVAL :: traffic k' u
  end.

Section FetcherExtras.
Context `{Collaborators}.


(** The retry loop when the attempt after [k] failures succeeds, [k] within
    the budget. *)
Lemma retry_from_succeeds (u : string) (t : string) :
  forall (k budget : nat) (w : world) (es : list exn),
  k <= budget ->
  failures k u (net w) = Some es ->
  snd (attempt u (net_after k u (net w))) = Ok t ->
  retry_from budget GRAPH_INTERVAL
    (res <- http_get u GRAPH_REQ_TIMEOUT ;;
     match error res with
     | Some e => throw e
     | None => ret (text res)
     end)%job w =
  (Ok t,
   {| drawn := drawn w; remote := remote w; created := created w;
      net := fst (attempt u (net_after k u (net w)));
      wire := (wire w ++ traffic k u)%list;
      console := console w |}).
Proof.
  induction k as [|k IH]; intros budget w es Hle Hfail Hok.
  - simpl in Hok. destruct budget; simpl; rewrite fetch_attempt, Hok; reflexivity.
  - destruct budget as [|budget]; [lia|].
    simpl in Hfail, Hok. cbn [retry_from]. rewrite fetch_attempt.
    destruct (attempt u (net w)) as [n1 [?|e1]] eqn:Ha; [discriminate|].
    cbn [fst snd] in *.
    destruct (failures k u n1) as [es'|] eqn:Hrest; [|discriminate].
    unfold sleep. cbn [snd].
    rewrite (IH budget _ es' ltac:(lia)); cbn [net]; auto.
    cbn [drawn remote created wire console].
    cbn [net_after traffic]. rewrite Ha. cbn [fst].
    rewrite <- !app_assoc. reflexivity.
Qed.

(** X4. A fetch that succeeds within the retry budget.  When the first [k]
    attempts fail ([k] at most 2) and the next one answers, [fetchGraph]
    returns the body of that answer after [k + 1] requests and [k] pauses,
    and leaves the queue alone.  (The retry loop is the one modelled for
    promise-retries.) *)
Theorem fetch_succeeds_within_budget (u t : string) (k : nat) (w : world)
    (es : list exn) :
  u <> "" ->
  k <= GRAPH_RETIRES ->
  failures k u (net w) = Some es ->
  snd (attempt u (net_after k u (net w))) = Ok t ->
  let out := fetchGraph u w in
  fst out = Ok t /\
  wire (snd out) = (wire w ++ traffic k u)%list /\
  created (snd out) = created w /\ drawn (snd out) = drawn w /\
  remote (snd out) = remote w.
Proof.
  intros Hne Hk Hfail Hok out.
  assert (Hrun : fetchGraph u w =
                 (Ok t,
                  {| drawn := drawn w; remote := remote w; created := created w;
                     net := fst (attempt u (net_after k u (net w)));
                     wire := (wire w ++ traffic k u)%list;
                     console := console w |})).
  { unfold fetchGraph, assert_url. simpl truthy.
    apply String.eqb_neq in Hne. rewrite Hne. simpl negb. cbv iota.
    unfold bindM at 1. unfold ret at 1. cbv iota beta.
    unfold try_catch, retry. simpl retires. simpl interval.
    now rewrite (retry_from_succeeds u t k GRAPH_RETIRES w es Hk Hfail Hok). }
  subst out. rewrite Hrun. cbn [fst snd wire created drawn remote]. conjs; reflexivity.
Qed.

End FetcherExtras.

Section JobExtras.
Context `{Collaborators}.

(** X13. The resolver's edge cases.  A resolved path is never ["/"]: the root
    is returned as the empty string, so that a URL built as [host + path +
    "/..."] has no doubled slash.  A URL for which Node reports no path is
    refused with a [TypeError], and that is the only way [parseUrl] fails. *)
Theorem parseUrl_edges (u : string) :
  (forall parts, parseUrl u = Ok parts -> parts_path parts <> "/") /\
  ((forall p, path (URL_parse u) <> VStr p) ->
   exists e, parseUrl u = Throw e /\ name e = "TypeError") /\
  (forall e, parseUrl u = Throw e -> forall p, path (URL_parse u) <> VStr p).
Proof.
  unfold parseUrl. conjs.
  - intros parts. destruct (path (URL_parse u)); simpl; try discriminate.
    intros E. inversion E. simpl.
    destruct (String.eqb (Path_resolve s) "/") eqn:Er; [discriminate|].
    now apply String.eqb_neq.
  - intros Hnone. destruct (path (URL_parse u)) eqn:Ep; simpl;
      try (eexists; split; reflexivity).
    exfalso. exact (Hnone s eq_refl).
  - intros e E p Hp. rewrite Hp in E. simpl in E. discriminate.
Qed.

(** X14. The job fails before it has done anything when the push log fails,
    when the push has no changeset, or when the repository URL cannot be
    resolved: the failure is the result, and nothing is logged, fetched or
    submitted. *)
Theorem job_fails_before_any_effect (cfg : config) (job : job_data) (w : world) :
  (forall e,
     pushlog_getOne (url (repo job)) (pushref_id job) = Throw e ->
     work cfg job w = (Throw e, w)) /\
  (forall p,
     pushlog_getOne (url (repo job)) (pushref_id job) = Ok p ->
     changesets p = [] ->
     exists e, work cfg job w = (Throw e, w) /\ name e = "TypeError") /\
  (forall p earlier c e,
     pushlog_getOne (url (repo job)) (pushref_id job) = Ok p ->
     changesets p = (earlier ++ [c])%list ->
     parseUrl (url (repo job)) = Throw e ->
     work cfg job w = (Throw e, w)).
Proof.
  unfold work, bindM, lift. conjs.
  - intros e Hp. now rewrite Hp.
  - intros p Hp Hnone. rewrite Hp. unfold last_changeset. rewrite Hnone. simpl.
    eexists. split; reflexivity.
  - intros p earlier c e Hp Hc Hurl.
    rewrite Hp, (last_changeset_of p earlier c Hc), Hurl. reflexivity.
Qed.

End JobExtras.

Section JobComposition.
Context `{Collaborators}.

(** X15. A failed fetch is fatal.  When the three attempts at the template
    URL of the push all fail, the job ends with the fetcher's error: there is
    no fallback to the error template, no identifier is drawn and no task is
    submitted. *)
Theorem job_fails_when_fetch_fails (cfg : config) (job : job_data) (w : world)
    (p : push) (earlier : list changeset) (c : changeset) (parts : url_parts)
    (e1 e2 e3 : exn) :
  pushlog_getOne (url (repo job)) (pushref_id job) = Ok p ->
  changesets p = (earlier ++ [c])%list ->
  parseUrl (url (repo job)) = Ok parts ->
  let u :=
    projectConfig_tcYamlUrl (config_try cfg)
      {| var_alias := alias (repo job); var_revision := node c;
         var_path := parts_path parts; var_host := parts_host parts |} in
  u <> "" ->
  failures (S GRAPH_RETIRES) u (net w) = Some [e1; e2; e3] ->
  let out := work cfg job w in
  fst out = Throw (Error ("Could not fetch graph at " ++ u ++ LF ++ " " ++ stack e3)) /\
  created (snd out) = created w /\ drawn (snd out) = drawn w /\
  remote (snd out) = remote w.
Proof.
  intros Hp Hc Hurl u Hne Hfail out. subst out.
  rewrite (work_steps cfg job w p earlier c parts Hp Hc Hurl). fold u.
  unfold bindM, console_log. cbv beta iota.
  match goal with
  | |- context [fetchGraph u ?w1] =>
      destruct (fetchGraph_exhausted u w1 e1 e2 e3 Hne Hfail) as (n3 & Hrun);
      cbn [net wire drawn remote created console] in Hrun;
      rewrite Hrun
  end.
  cbn [fst snd created drawn remote]. conjs; reflexivity.
Qed.

(** X16. What the job renders with.  For a push with a last changeset [c],
    [work] is: one line on the console, the fetch of the template URL built
    from the resolved repository URL and [c]'s revision, then
    [scheduleTaskGroup] with template variables in which [owner] is the push
    user, [revision] the revision of [c], [project] the alias, [pushlog_id]
    the push id as a string, [source] the URL the template was fetched from,
    and [comment] a string that is never empty. *)
Theorem job_template_variables (cfg : config) (job : job_data)
    (p : push) (earlier : list changeset) (c : changeset) (parts : url_parts) :
  pushlog_getOne (url (repo job)) (pushref_id job) = Ok p ->
  changesets p = (earlier ++ [c])%list ->
  parseUrl (url (repo job)) = Ok parts ->
  let u :=
    projectConfig_tcYamlUrl (config_try cfg)
      {| var_alias := alias (repo job); var_revision := node c;
         var_path := parts_path parts; var_host := parts_host parts |} in
  let scopes :=
    (projectConfig_scopes (config_try cfg) (alias (repo job)) ++ [notify_scope p])%list in
  exists vars,
    lookup "owner" vars = Some (VStr (user p)) /\
    lookup "revision" vars = Some (VStr (node c)) /\
    lookup "project" vars = Some (VStr (alias (repo job))) /\
    lookup "pushlog_id" vars = Some (VStr (to_string (push_id p))) /\
    lookup "source" vars = Some (VStr u) /\
    (exists s, lookup "comment" vars = Some (VStr s) /\ s <> "") /\
    forall w,
      work cfg job w =
      (console_log ("Fetching '.taskcluster.yml' url " ++ u ++ " for '" ++
                    alias (repo job) ++ "' push id " ++ to_string (push_id p)) ;;;
       graphText <- fetchGraph u ;;
       scheduleTaskGroup
         {| credentials := config_credentials cfg; authorizedScopes := scopes |}
         (alias (repo job)) graphText vars scopes (errorTask (config_try cfg)))%job w.
Proof.
  intros Hp Hc Hurl u scopes.
  eexists. conjs.
  7:{ intros w. exact (work_steps cfg job w p earlier c parts Hp Hc Hurl). }
  - reflexivity.
  - reflexivity.
  - reflexivity.
  - reflexivity.
  - reflexivity.
  - destruct (comment_is_not_empty (desc c)) as (s & Hs & Hne).
    exists s. split; [|exact Hne]. cbn. now rewrite Hs.
Qed.

End JobComposition.

(* ================================================================== *)
(** ** The further properties at work *)
(* ================================================================== *)

Lemma parseCommitMessage_directive_witness :
  exists before rest after,
    ("Bug 1; try: -b do -p all" ++ LF ++ "more") =
      before ++ "try: -b do -p all" ++ after /\
    "try: -b do -p all" = TRY_PREFIX ++ rest /\
    (forall p, p < String.length before ->
       substring p (String.length TRY_PREFIX)
         ("Bug 1; try: -b do -p all" ++ LF ++ "more") <> TRY_PREFIX) /\
    (forall x y, "try: -b do -p all" <> x ++ LF ++ y) /\
    (after = "" \/ exists after', after = LF ++ after').
Proof.
  apply (parseCommitMessage_directive
           ("Bug 1; try: -b do -p all" ++ LF ++ "more") "try: -b do -p all").
  vm_compute. reflexivity.
Defined.


Lemma fetch_succeeds_within_budget_witness :
  let busy := Ok {| error := Some Demo.refused; text := "" |} in
  let w :=
    Demo.world_with [] [busy; Throw Demo.refused;
                        Ok {| error := None; text := Demo.t_wrapped |}] in
  let out := fetchGraph Demo.graph_url w in
  fst out = Ok Demo.t_wrapped /\
  wire (snd out) = (wire w ++ traffic 2 Demo.graph_url)%list /\
  created (snd out) = created w /\ drawn (snd out) = drawn w /\
  remote (snd out) = remote w.
Proof.
  intros busy w.
  apply (fetch_succeeds_within_budget Demo.graph_url Demo.t_wrapped 2 w
           [Demo.refused; Demo.refused]).
  - discriminate.
  - unfold GRAPH_RETIRES. lia.
  - reflexivity.
  - reflexivity.
Defined.

Lemma task_ids_in_order_witness :
  map taskId (created (snd Demo.three_run)) = map slugid_nice (seq 0 3) /\
  Forall (fun c => via c = Demo.client) (created (snd Demo.three_run)).
Proof.
  exact (task_ids_in_order Demo.client "try" Demo.t_three Demo.variables ["scope:a"]
           Demo.err_plain (Demo.world_with [] []) (created (snd Demo.three_run))
           eq_refl).
Defined.


Lemma rendered_tasks_carry_scheduler_witness :
  exists items,
    graph_tasks
      (VObj [ ("version", VNum 0);
              ("tasks",
               VArr [VObj [("task", VObj [("payload", VObj []);
                                          ("schedulerId", VStr "gecko-level-3")])]]
                    []) ]) = Ok items /\
    Forall (fun task => exists inner,
              get_field task "task" = Ok inner /\ accepts_properties inner = true /\
              get_field inner "schedulerId" = Ok (VStr "gecko-level-3"))
           items.
Proof.
  apply (rendered_tasks_carry_scheduler "try" Demo.t_wrapped Demo.variables).
  vm_compute. reflexivity.
Defined.

Lemma submitted_tasks_carry_scheduler_witness :
  Forall (fun c => get_field (definition c) "schedulerId" = Ok (VStr "gecko-level-3"))
         (created (snd Demo.three_run)).
Proof.
  apply (submitted_tasks_carry_scheduler Demo.client "try" Demo.t_three Demo.variables
           ["scope:a"] Demo.err_plain (Demo.world_with [] [])
           (VObj [("version", VNum 0); ("tasks", VArr Demo.three_items [])])
           (created (snd Demo.three_run))).
  - vm_compute. reflexivity.
  - reflexivity.
Defined.

Lemma failed_fallback_submits_nothing_witness :
  let w := Demo.world_with [] [] in
  let out :=
    scheduleTaskGroup Demo.client "try" Demo.t_broken Demo.variables ["scope:a"]
      Demo.err_no_task w in
  fst out = Throw (TypeError "Cannot read property 'task' of undefined") /\
  created (snd out) = created w /\ drawn (snd out) = drawn w /\
  remote (snd out) = remote w /\
  console (snd out) =
    (console w ++
     [("Error interpreting .taskcluster.yml: " ++ message Demo.yaml_error)%string])%list.
Proof.
  intros w.
  apply (failed_fallback_submits_nothing Demo.client "try" Demo.t_broken Demo.variables
           ["scope:a"] Demo.err_no_task w Demo.yaml_error).
  - reflexivity.
  - reflexivity.
Defined.

(** A second set of collaborators: the queue accepts every call, and the push
    log knows a push without changesets. *)
Module Cases.

(** A graph whose second task declares a number as its scopes. *)
Definition t_bad_scopes : string :=
  "{version: 0, tasks: [{task: {payload: {}}}, {task: {scopes: 5}}, {task: {payload: {}}}]}".
Definition doc_bad_scopes : value :=
  VObj [("version", VNum 0);
        ("tasks",
         VArr [ Demo.wrapped_task;
                VObj [("task", VObj [("scopes", VNum 5)])];
                Demo.wrapped_task ] [])].

(** A graph whose only task declares its scopes as one string instead of a
    list. *)
Definition t_string_scopes : string := "{version: 0, tasks: [{task: {scopes: abca}}]}".
Definition doc_string_scopes : value :=
  VObj [("version", VNum 0);
        ("tasks", VArr [VObj [("task", VObj [("scopes", VStr "abca")])]] [])].

Definition known (text : string) : result value :=
  if String.eqb text t_bad_scopes then Ok doc_bad_scopes
  else if String.eqb text t_string_scopes then Ok doc_string_scopes
  else Demo.known text.

Definition empty_push : push :=
  {| push_id := VNum 7; user := "dev@example.com"; date := VNum 1500000000;
     changesets := [] |}.

Definition not_found : exn :=
  {| name := "Error"; message := "push not found"; stack := "Error: push not found" |}.

Definition getOne (_ : string) (id : value) : result push :=
  match id with
  | VNum 42 => Ok Demo.the_push
  | VNum 7 => Ok empty_push
  | _ => Throw not_found
  end.

#[local] Instance collaborators : Collaborators :=
  {| yaml_safeLoad := known;
     instantiate := fun template _ => known template;
     slugid_nice := fun n => "slug-" ++ index_key n;
     Credentials := unit;
     Remote := nat;
     queue_createTask := fun _ _ served _ _ => (S served, None);
     Net := list (result response);
     request_get := Demo.scripted_get;
     URL_parse := Demo.parse;
     Path_resolve := Demo.resolve;
     TryConfig := string;
     projectConfig_level := fun _ _ => VNum 3;
     projectConfig_scopes := fun _ _ => ["scope:a"];
     projectConfig_tcYamlUrl :=
       fun _ v => var_host v ++ var_path v ++ "/raw-file/" ++ var_revision v ++
                  "/.taskcluster.yml";
     errorTask := fun errorTemplate => errorTemplate;
     pushlog_getOne := getOne |}.

Definition start : world :=
  {| drawn := 0; remote := 0; created := []; net := []; wire := []; console := [] |}.

Definition client : queue := {| credentials := tt; authorizedScopes := ["scope:a"] |}.

Definition cfg : config := {| config_try := Demo.err_plain; config_credentials := tt |}.

Definition job_without_changesets : job_data :=
  {| revision_hash := VStr "5ca1ab1e"; pushref_id := VNum 7;
     repo := {| url := "https://hg.mozilla.org/try/"; alias := "try" |} |}.

Definition unknown_job : job_data :=
  {| revision_hash := VStr "5ca1ab1e"; pushref_id := VNum 1;
     repo := {| url := "https://hg.mozilla.org/try/"; alias := "try" |} |}.

(** The job of the push [Demo.the_push], and a world whose network answers
    the first request with the given text. *)
Definition job : job_data :=
  {| revision_hash := VStr "5ca1ab1e"; pushref_id := VNum 42;
     repo := {| url := "https://hg.mozilla.org/try/"; alias := "try" |} |}.


(** The three tasks of [Demo.t_three] as rendered here. *)
Definition three_items : list value :=
  Eval vm_compute in
    match rendered_items "try" Demo.t_three Demo.variables Demo.err_plain start with
    | Ok items => items
    | Throw _ => []
    end.

Lemma well_formed_graph_is_submitted_witness :
  let out :=
    scheduleTaskGroup client "try" Demo.t_three Demo.variables ["scope:a"]
      Demo.err_plain start in
  fst out = Ok tt /\
  exists calls, created (snd out) = (created start ++ calls)%list /\
                List.length calls = List.length three_items.
Proof.
  apply (well_formed_graph_is_submitted client "try" Demo.t_three Demo.variables
           ["scope:a"] Demo.err_plain start three_items).
  - intros service id def. reflexivity.
  - vm_compute. reflexivity.
  - repeat constructor.
    + exists (VObj [("scopes", VArr [VStr "scope:a"; VStr "scope:b"] []);
                    ("taskGroupId", VStr "mine");
                    ("schedulerId", VStr "gecko-level-3")]),
        (VArr [VStr "scope:a"; VStr "scope:b"] []), ["scope:a"; "scope:b"].
      repeat split. right. now exists [].
    + exists (VObj [("payload", VObj []); ("schedulerId", VStr "gecko-level-3")]),
        VUndefined, []. repeat split. now left.
    + exists (VObj [("scopes", VArr [VStr "scope:c"] []);
                    ("schedulerId", VStr "gecko-level-3")]),
        (VArr [VStr "scope:c"] []), ["scope:c"].
      repeat split. right. now exists [].
Defined.

Lemma malformed_task_stops_run_witness :
  let out :=
    scheduleTaskGroup client "try" t_bad_scopes Demo.variables ["scope:a"]
      Demo.err_plain start in
  fst out = Throw (TypeError "taskDefinitionScopes.concat is not a function") /\
  name (TypeError "taskDefinitionScopes.concat is not a function") = "TypeError" /\
  exists calls, created (snd out) = (created start ++ calls)%list /\
                List.length calls = 1.
Proof.
  apply (malformed_task_stops_run client "try" t_bad_scopes Demo.variables ["scope:a"]
           Demo.err_plain start
           [VObj [("task", VObj [("payload", VObj []);
                                 ("schedulerId", VStr "gecko-level-3")])]]
           [VObj [("task", VObj [("payload", VObj []);
                                 ("schedulerId", VStr "gecko-level-3")])]]
           (VObj [("task", VObj [("scopes", VNum 5);
                                 ("schedulerId", VStr "gecko-level-3")])])).
  - intros service id def. reflexivity.
  - vm_compute. reflexivity.
  - repeat constructor.
    exists (VObj [("payload", VObj []); ("schedulerId", VStr "gecko-level-3")]),
      VUndefined, []. repeat split. now left.
  - reflexivity.
Defined.

Lemma three_items_well_formed : Forall well_formed_task three_items.
Proof.
  repeat constructor.
  - exists (VObj [("scopes", VArr [VStr "scope:a"; VStr "scope:b"] []);
                  ("taskGroupId", VStr "mine");
                  ("schedulerId", VStr "gecko-level-3")]),
      (VArr [VStr "scope:a"; VStr "scope:b"] []), ["scope:a"; "scope:b"].
    repeat split. right. now exists [].
  - exists (VObj [("payload", VObj []); ("schedulerId", VStr "gecko-level-3")]),
      VUndefined, []. repeat split. now left.
  - exists (VObj [("scopes", VArr [VStr "scope:c"] []);
                  ("schedulerId", VStr "gecko-level-3")]),
      (VArr [VStr "scope:c"] []), ["scope:c"].
    repeat split. right. now exists [].
Defined.

(** The graph of three tasks, whose first task comes with a [taskGroupId] of
    its own: all three are submitted, in order, under the identifier drawn for
    the first. *)
Lemma group_id_shared_witness :
  let out :=
    scheduleTaskGroup client "try" Demo.t_three Demo.variables ["scope:a"]
      Demo.err_plain start in
  fst out = Ok tt /\
  exists calls,
    created (snd out) = calls /\
    (exists c, hd_error calls = Some c /\ taskId c = "slug-0") /\
    Forall2
      (fun task c =>
         prepared ["scope:a"] (VStr "slug-0") task = Ok (definition c) /\
         get_field (definition c) "taskGroupId" = Ok (VStr "slug-0"))
      three_items calls.
Proof.
  destruct (group_id_shared client "try" Demo.t_three Demo.variables ["scope:a"]
              Demo.err_plain start)
    as (calls & Hc & Hhd & _ & _ & _ & Hall).
  { discriminate. }
  destruct (Hall (fun _ _ _ => eq_refl) three_items eq_refl three_items_well_formed)
    as (Hend & Hcalls).
  split; [exact Hend|]. exists calls. split; [exact Hc|]. split; [|exact Hcalls].
  destruct calls as [|c calls]; [inversion Hcalls|].
  exists c. split; [reflexivity|]. now apply Hhd.
Defined.



Lemma job_fails_before_any_effect_witness :
  work cfg unknown_job start = (Throw not_found, start) /\
  exists e, work cfg job_without_changesets start = (Throw e, start) /\
            name e = "TypeError".
Proof.
  split.
  - exact (proj1 (job_fails_before_any_effect cfg unknown_job start)
             not_found eq_refl).
  - exact (proj1 (proj2 (job_fails_before_any_effect cfg job_without_changesets start))
             empty_push eq_refl eq_refl).
Defined.

End Cases.

Lemma parseUrl_edges_witness :
  parseUrl "//user@hg.mozilla.org/" =
    Ok {| parts_path := ""; parts_host := "http//hg.mozilla.org" |} /\
  parts_path {| parts_path := ""; parts_host := "http//hg.mozilla.org" |} <> "/".
Proof.
  split.
  - vm_compute. reflexivity.
  - apply (proj1 (parseUrl_edges "//user@hg.mozilla.org/")).
    vm_compute. reflexivity.
Defined.

Lemma job_fails_when_fetch_fails_witness :
  let out := work Demo.cfg Demo.job (Demo.world_with [] []) in
  fst out =
    Throw (Error ("Could not fetch graph at " ++ Demo.graph_url ++ LF ++ " " ++
                  stack Demo.refused)) /\
  created (snd out) = [] /\ drawn (snd out) = 0 /\
  remote (snd out) = remote (Demo.world_with [] []).
Proof.
  apply (job_fails_when_fetch_fails Demo.cfg Demo.job (Demo.world_with [] [])
           Demo.the_push
           [{| node := "1f0e"; desc := "Bug 1 - first part" |}]
           {| node := "abcd";
              desc := "Bug 1 - last part; try: -b do -p all" ++ LF ++ "more" |}
           {| parts_path := "/try"; parts_host := "https://hg.mozilla.org" |}
           Demo.refused Demo.refused Demo.refused).
  - reflexivity.
  - reflexivity.
  - vm_compute. reflexivity.
  - discriminate.
  - reflexivity.
Defined.

Lemma job_template_variables_witness :
  exists vars,
    lookup "owner" vars = Some (VStr "dev@example.com") /\
    lookup "revision" vars = Some (VStr "abcd") /\
    lookup "project" vars = Some (VStr "try") /\
    lookup "pushlog_id" vars = Some (VStr "42") /\
    lookup "source" vars = Some (VStr Demo.graph_url) /\
    (exists s, lookup "comment" vars = Some (VStr s) /\ s <> "") /\
    forall w,
      work Demo.cfg Demo.job w =
      (console_log ("Fetching '.taskcluster.yml' url " ++ Demo.graph_url ++
                    " for 'try' push id 42") ;;;
       graphText <- fetchGraph Demo.graph_url ;;
       scheduleTaskGroup
         {| credentials := tt;
            authorizedScopes :=
              ["scope:a"; "queue:route:notify.email.dev@example.com.*"] |}
         "try" graphText vars
         ["scope:a"; "queue:route:notify.email.dev@example.com.*"]
         Demo.err_plain)%job w.
Proof.
  exact (job_template_variables Demo.cfg Demo.job Demo.the_push
           [{| node := "1f0e"; desc := "Bug 1 - first part" |}]
           {| node := "abcd";
              desc := "Bug 1 - last part; try: -b do -p all" ++ LF ++ "more" |}
           {| parts_path := "/try"; parts_host := "https://hg.mozilla.org" |}
           eq_refl eq_refl eq_refl).
Defined.
